(** * http-discord: component registry and dispatcher

    A shallow embedding of [src/lib/core/bot/components.ts]: the startup scan
    [fetchComponents], the startup operation [setupComponents] and the
    dispatcher closure [runComponent] it returns, followed by the properties
    of the specification that concern them. *)

From Stdlib Require Import String Ascii List ZArith Bool Arith Lia DecimalString.
Import ListNotations.
Local Open Scope list_scope.
Local Open Scope string_scope.

(** ** JavaScript string and array primitives used by the source *)

Module JS.

(** [s.split(sep)] for a separator that matches exactly one character
    (a one-character string, or a character class such as [/[\\\/]/]).
    The result is never empty: [''.split(sep)] is [['']]. *)
Fixpoint split_by (sep : ascii -> bool) (s : string) : list string :=
  match s with
  | EmptyString => [EmptyString]
  | String c r =>
      if sep c then EmptyString :: split_by sep r
      else match split_by sep r with
           | h :: t => String c h :: t
           | [] => [String c EmptyString]
           end
  end.

Definition split (sep : ascii) (s : string) : list string :=
  split_by (Ascii.eqb sep) s.

(** [s.split(sep)[0]]: the array is never empty, so the element exists. *)
Definition split_head (sep : ascii) (s : string) : string :=
  hd EmptyString (split sep s).

(** [arr[i]]: [undefined] (here [None]) out of range. *)
Definition at_index {A} (i : nat) (arr : list A) : option A := nth_error arr i.

(** [s.slice(a, b)] and [s.slice(a)] for [0 <= a <= b]. *)
Definition slice (a b : nat) (s : string) : string := substring a (b - a) s.
Definition slice_from (a : nat) (s : string) : string :=
  substring a (String.length s - a) s.

(** [s.toUpperCase()] on the ASCII letters. *)
Definition upper_ascii (c : ascii) : ascii :=
  let n := nat_of_ascii c in
  if ((97 <=? n) && (n <=? 122))%nat then ascii_of_nat (n - 32) else c.

Fixpoint toUpperCase (s : string) : string :=
  match s with
  | EmptyString => EmptyString
  | String c r => String (upper_ascii c) (toUpperCase r)
  end.

(** [arr.includes(x)] on an array of strings; [x] may be [undefined]. *)
Definition includes (arr : list string) (x : option string) : bool :=
  match x with
  | Some v => existsb (String.eqb v) arr
  | None => false
  end.

(** [rows.join(sep)]. *)
Fixpoint join (sep : string) (rows : list string) : string :=
  match rows with
  | [] => EmptyString
  | [r] => r
  | r :: rest => r ++ sep ++ join sep rest
  end.

(** [x === y] where [x] is a string and [y] a string or [undefined]. *)
Definition strict_eq (x : string) (y : option string) : bool :=
  match y with
  | Some v => String.eqb x v
  | None => false
  end.

End JS.

(** ** Text helpers *)

Definition dquote : string := String (ascii_of_nat 34) EmptyString.
Definition newline : string := String (ascii_of_nat 10) EmptyString.
Definition esc : string := String (ascii_of_nat 27) EmptyString.

(** [yellow] and [underline] of [@std/fmt/colors]: ANSI escape wrappers. *)
Definition yellow (s : string) : string := esc ++ "[33m" ++ s ++ esc ++ "[39m".
Definition underline (s : string) : string := esc ++ "[4m" ++ s ++ esc ++ "[24m".

(** ** Data model *)

(** Values a JavaScript [throw] or a rejected promise can carry, as far as
    the source tells them apart ([err instanceof Deno.errors.NotFound]). *)
Inductive exn : Type :=
| DenoNotFound (msg : string)
| DenoPermissionDenied (msg : string)
| JsError (msg : string).

Definition instanceof_NotFound (err : exn) : bool :=
  match err with
  | DenoNotFound _ => true
  | _ => false
  end.

(** The state a promise ends in; [Pending] is a promise that never settles. *)
Inductive completion (A : Type) : Type :=
| Fulfilled (a : A)
| Rejected (e : exn)
| Pending.
Arguments Fulfilled {A} a.
Arguments Rejected {A} e.
Arguments Pending {A}.

(** [interaction.data.component_type] (absent on modal submissions) and
    [interaction.data.custom_id]. *)
Record InteractionData : Type := {
  component_type : option Z;
  custom_id : string
}.

Record Interaction : Type := { data : InteractionData }.

(** What calling a handler gives back: it throws, or it returns a plain
    value, or it returns a promise. *)
Inductive call_result : Type :=
| Throws (e : exn)
| ReturnsValue
| ReturnsPromise (p : completion unit).

(** [Component] of [internal/types/config.ts], the fields the source uses. *)
Record Component : Type := {
  name : string;
  category : string;
  default : Interaction -> call_result
}.

(** The namespace object a dynamic [import] evaluates to. *)
Record ComponentModule : Type := {
  mod_config : option Component;
  mod_default : Interaction -> call_result
}.

(** An entry yielded by [walk]. *)
Module WalkEntry.
Record t : Type := { path : string; name : string }.
End WalkEntry.

(** Observable effects, in the order they happen: console output, the CLI
    loader and calls of handler callbacks. *)
Inductive effect : Type :=
| ConsoleLog (msg : string)
| ConsoleWarn (msg : string)
| ConsoleError (prefix : string) (err : exn)
| LoaderStart (label : string)
| LoaderResolve (label : string)
| LoaderError (label : string)
| Call (c : Component) (interaction : Interaction).

(** ** Asynchronous computations: an effect trace and a completion *)

Definition Async (A : Type) : Type := (list effect * completion A)%type.

Definition ret {A} (a : A) : Async A := ([], Fulfilled a).
Definition throw {A} (e : exn) : Async A := ([], Rejected e).
Definition emit (ev : effect) : Async unit := ([ev], Fulfilled tt).

Definition bind {A B} (m : Async A) (k : A -> Async B) : Async B :=
  match m with
  | (tr, Fulfilled a) => let (tr', r) := k a in ((tr ++ tr')%list, r)
  | (tr, Rejected e) => (tr, Rejected e)
  | (tr, Pending) => (tr, Pending)
  end.

(** [try { m } catch (e) { h e }]. *)
Definition try_catch {A} (m : Async A) (h : exn -> Async A) : Async A :=
  match m with
  | (tr, Rejected e) => let (tr', r) := h e in ((tr ++ tr')%list, r)
  | other => other
  end.

(** [await p] for a promise in a known final state. *)
Definition await {A} (p : completion A) : Async A := ([], p).

Declare Scope async_scope.
Delimit Scope async_scope with async.
Notation "x <- m ;; k" := (bind m (fun x => k))
  (at level 61, m at next level, right associativity) : async_scope.
Notation "m ;; k" := (bind m (fun _ => k))
  (at level 61, right associativity) : async_scope.
Local Open Scope async_scope.

Definition trace {A} (m : Async A) : list effect := fst m.
Definition outcome {A} (m : Async A) : completion A := snd m.

Definition console_log (msg : string) : Async unit := emit (ConsoleLog msg).
Definition console_warn (msg : string) : Async unit := emit (ConsoleWarn msg).
Definition console_error (prefix : string) (err : exn) : Async unit :=
  emit (ConsoleError prefix err).

(** Modelled from the spec: [src/lib/internal/loader.ts] is absent. The spec
    places the CLI loader among the cosmetic, informational output, so
    [loader(label)] and its [resolve()] and [error()] only write to the
    observability channel and never fail. *)
Module loader.
Definition start (label : string) : Async unit := emit (LoaderStart label).
Definition resolve (label : string) : Async unit := emit (LoaderResolve label).
Definition error (label : string) : Async unit := emit (LoaderError label).
End loader.

(** ** The dispatcher *)

(** [ComponentType] of [discord-api-types/v10] (external package). *)
Module ComponentType.
Definition ActionRow : Z := 1.
Definition Button : Z := 2.
Definition StringSelect : Z := 3.
Definition TextInput : Z := 4.
Definition UserSelect : Z := 5.
Definition RoleSelect : Z := 6.
Definition MentionableSelect : Z := 7.
Definition ChannelSelect : Z := 8.
End ComponentType.

(** The [switch] of [getCategory]; an absent [component_type] is
    [undefined], which equals no [case] label. *)
Definition getCategory (interaction : Interaction) : string :=
  match component_type (data interaction) with
  | Some t =>
      if (t =? ComponentType.Button)%Z then "buttons"
      else if ((t =? ComponentType.ChannelSelect)
               || (t =? ComponentType.RoleSelect)
               || (t =? ComponentType.UserSelect)
               || (t =? ComponentType.StringSelect)
               || (t =? ComponentType.MentionableSelect))%Z
      then "selects"
      else "modals"
  | None => "modals"
  end.

(** What [await Promise.resolve(component.default(interaction))] observes:
    a synchronous throw and a rejection both surface as an exception inside
    the [try], a plain value and a fulfilled promise both let it go on. *)
Definition settle_of (r : call_result) : completion unit :=
  match r with
  | Throws e => Rejected e
  | ReturnsValue => Fulfilled tt
  | ReturnsPromise p => p
  end.

Definition invoke (component : Component) (interaction : Interaction) : Async unit :=
  emit (Call component interaction) ;;
  await (settle_of (default component interaction)).

Definition matches (interaction : Interaction) (category' : string) (c : Component) : bool :=
  (name c =? custom_id (data interaction)) && (category c =? category').

Definition not_found_message (interaction : Interaction) : string :=
  " " ++ yellow "!" ++ " Component " ++ dquote
      ++ custom_id (data interaction) ++ dquote ++ " not found".

Definition running_label (component : Component) : string :=
  "Running component " ++ dquote ++ name component ++ dquote.

Definition runComponent (components : list Component) (interaction : Interaction)
  : Async unit :=
  let category' := getCategory interaction in
  match find (matches interaction category') components with
  | None =>
      console_warn (not_found_message interaction) ;;
      ret tt
  | Some component =>
      loader.start (running_label component) ;;
      try_catch
        (invoke component interaction ;;
         loader.resolve (running_label component))
        (fun error =>
           loader.error (running_label component) ;;
           console_error " └" error)
  end.

(** ** Interleaved dispatches

    The host may call the dispatcher again while earlier calls are suspended
    at an [await]. An invocation is followed through its suspension points;
    a pool of invocations shares the console, on which every line is tagged
    with the index of the invocation that wrote it. *)












(** ** Sample events and handlers *)

Definition click (kind : option Z) (id : string) : Interaction :=
  {| data := {| component_type := kind; custom_id := id |} |}.

Definition noop (n c : string) : Component :=
  {| name := n; category := c; default := fun _ => ReturnsValue |}.

Definition thrower (n c : string) : Component :=
  {| name := n; category := c; default := fun _ => Throws (JsError "boom") |}.

(** The select-menu kinds of the specification. *)
Definition select_kinds : list Z :=
  [ComponentType.ChannelSelect; ComponentType.RoleSelect; ComponentType.UserSelect;
   ComponentType.StringSelect; ComponentType.MentionableSelect].

(** ** The startup scan *)

(** What the scan reads from its environment: [Deno.readDirSync] (only
    whether it throws matters, [None] is success), the entries collected by
    [Array.fromAsync(walk(root, {exts: ['.ts'], includeDirs: false}))], and
    the dynamic [import] of the module at a walked path (the specifier
    [join('file://', Deno.cwd(), file.path)] is a function of [file.path]). *)
Record World : Type := {
  readDirSync : string -> option exn;
  walk : string -> completion (list WalkEntry.t);
  import : string -> completion ComponentModule
}.

Definition validComponentCategories : list string := ["buttons"; "modals"; "selects"].

Definition is_path_sep (c : ascii) : bool :=
  (Ascii.eqb c (ascii_of_nat 92)) || (Ascii.eqb c "/").

(** [file.path.split(/[\\\/]/)[2]]. *)
Definition path_category (file : WalkEntry.t) : option string :=
  JS.at_index 2 (JS.split_by is_path_sep (WalkEntry.path file)).

(** [file.name.split('.')[0]]. *)
Definition file_component_name (file : WalkEntry.t) : string :=
  JS.split_head "." (WalkEntry.name file).

Definition no_category_message (file : WalkEntry.t) : string :=
  " " ++ yellow "!" ++ " Category for " ++ dquote ++ file_component_name file
      ++ dquote ++ " could not be determined, skipping".

Definition duplicate_message (component : Component) : string :=
  " " ++ yellow "!" ++ " "
      ++ (JS.toUpperCase (JS.slice 0 1 (category component))
          ++ JS.slice_from 1 (JS.split_head "s" (category component)))
      ++ " component " ++ dquote ++ name component ++ dquote
      ++ " already exists, skipping the duplicate".

(** [category as 'buttons' | 'modals' | 'selects'], reached only after the
    [includes] test has excluded [undefined]. *)
Definition as_category (category' : option string) : string :=
  match category' with
  | Some c => c
  | None => EmptyString
  end.

Definition same_key (component : Component) (category' : option string) (c : Component)
  : bool :=
  (name c =? name component) && JS.strict_eq (category c) category'.

(** The body of [for (const file of files)], with [componentData] threaded
    through the iterations. *)
Fixpoint fetchLoop (w : World) (files : list WalkEntry.t) (componentData : list Component)
  : Async (list Component) :=
  match files with
  | [] => ret componentData
  | file :: rest =>
      componentModule <- await (import w (WalkEntry.path file)) ;;
      let category' := path_category file in
      if negb (JS.includes validComponentCategories category') then
        console_warn (no_category_message file) ;;
        fetchLoop w rest componentData
      else
        let component :=
          {| name := file_component_name file;
             category := as_category category';
             default := mod_default componentModule |} in
        match find (same_key component category') componentData with
        | Some _ =>
            console_warn (duplicate_message component) ;;
            fetchLoop w rest componentData
        | None => fetchLoop w rest (componentData ++ [component])%list
        end
  end.

Definition root_not_found_message : string :=
  " " ++ yellow "!" ++ " src/components directory not found".

Definition fetchComponents (w : World) : Async (list Component) :=
  match readDirSync w "./src/components" with
  | Some err =>
      (if instanceof_NotFound err
       then console_warn root_not_found_message
       else ret tt) ;;
      ret []
  | None =>
      let presentCategories :=
        filter (fun category' =>
                  match readDirSync w ("./src/components/" ++ category') with
                  | None => true
                  | Some _ => false
                  end) validComponentCategories in
      files <- await (walk w "./src/components") ;;
      fetchLoop w files []
  end.

(** ** The startup operation *)

(** [addComponent], acting on the pair [(generatedN, generatedStr)]. *)
Definition addComponent (name' category' : string) (totalComponents : nat)
           (st : nat * list (list string)) : nat * list (list string) :=
  let generatedN := S (fst st) in
  (generatedN,
   (snd st ++ [[ if (totalComponents =? 1)%nat then "-"
                 else if (generatedN =? 1)%nat then "┌"
                 else if (totalComponents =? generatedN)%nat then "└"
                 else "├";
                 (name' ++ " (" ++ category' ++ ")")%string ]])%list).

Definition listing (components : list Component) : string :=
  let st :=
    fold_left
      (fun st component =>
         addComponent (name component) (category component)
                      (List.length components) st)
      components (0, [[underline (newline ++ "Component")]]) in
  JS.join newline (map (JS.join " ") (snd st)).

Definition setupComponents (w : World) : Async (Interaction -> Async unit) :=
  loader.start "Generating components" ;;
  try_catch
    (components <- fetchComponents w ;;
     loader.resolve "Generating components" ;;
     console_log (listing components) ;;
     ret (runComponent components))
    (fun e =>
       loader.error "Generating components" ;;
       throw e).


(** ** Vocabulary of the properties *)

Definition root : string := "./src/components".
Definition generating : string := "Generating components".

(** The lookup key of a record. *)
Definition key (c : Component) : string * string := (name c, category c).

Definition has_key (k : string * string) (c : Component) : bool :=
  (name c =? fst k) && (category c =? snd k).

(** The file passes the category test of the loop. *)
Definition categorized (file : WalkEntry.t) : bool :=
  JS.includes validComponentCategories (path_category file).

(** The record the loop builds for a file that passed the category test. *)
Definition record_of (file : WalkEntry.t) (m : ComponentModule) : Component :=
  {| name := file_component_name file;
     category := as_category (path_category file);
     default := mod_default m |}.

Definition loads (w : World) (file : WalkEntry.t) : Prop :=
  exists m, import w (WalkEntry.path file) = Fulfilled m.

(** The records of the categorized files, in scan order, duplicates included. *)
Fixpoint candidates (w : World) (files : list WalkEntry.t) : list Component :=
  match files with
  | [] => []
  | file :: rest =>
      match import w (WalkEntry.path file) with
      | Fulfilled m =>
          if categorized file then record_of file m :: candidates w rest
          else candidates w rest
      | _ => candidates w rest
      end
  end.

(** Appending each candidate whose key is not there yet. *)
Fixpoint keep_first (cands acc : list Component) : list Component :=
  match cands with
  | [] => acc
  | c :: rest =>
      match find (has_key (key c)) acc with
      | Some _ => keep_first rest acc
      | None => keep_first rest (acc ++ [c])
      end
  end.

(** Some character of [s] is a separator. *)
Fixpoint has_match (sep : ascii -> bool) (s : string) : bool :=
  match s with
  | EmptyString => false
  | String c r => sep c || has_match sep r
  end.

Definition has_char (a : ascii) (s : string) : bool := has_match (Ascii.eqb a) s.
Definition has_path_sep (s : string) : bool := has_match is_path_sep s.

(** The category path segment is one of the three category names. *)
Definition in_category_folder (file : WalkEntry.t) : Prop :=
  exists cat, path_category file = Some cat /\ In cat validComponentCategories.

(** The specification's wording of the name: the base name with its
    extension, the last dot and what follows it, stripped. *)
Definition strip_extension (base : string) : string :=
  match JS.split "." base with
  | [] | [_] => base
  | parts => JS.join "." (removelast parts)
  end.

(** ** Sample file trees *)

Definition file_at (p n : string) : WalkEntry.t :=
  {| WalkEntry.path := p; WalkEntry.name := n |}.

Definition module_of (f : Interaction -> call_result) : ComponentModule :=
  {| mod_config := None; mod_default := f |}.

Definition returns_value : Interaction -> call_result := fun _ => ReturnsValue.
Definition throws_boom : Interaction -> call_result := fun _ => Throws (JsError "boom").

(** A tree in which every module loads; [first.ts] and [first.again.ts]
    give the same name in the same category. *)
Definition sample_files : list WalkEntry.t :=
  [file_at "src/components/buttons/first.ts" "first.ts";
   file_at "src/components/stray.ts" "stray.ts";
   file_at "src/components/buttons/nested/first.again.ts" "first.again.ts";
   file_at "src/components/selects/first.ts" "first.ts"].

Definition sample_world : World :=
  {| readDirSync := fun _ => None;
     walk := fun _ => Fulfilled sample_files;
     import := fun p =>
       Fulfilled (module_of (if p =? "src/components/buttons/first.ts"
                             then throws_boom else returns_value)) |}.

(** A tree whose second module throws while it is loaded. *)
Definition broken_world : World :=
  {| readDirSync := fun _ => None;
     walk := fun _ => Fulfilled sample_files;
     import := fun p =>
       if p =? "src/components/stray.ts" then Rejected (JsError "syntax")
       else Fulfilled (module_of returns_value) |}.

(** No components directory, and one that cannot be read. *)
Definition rootless_world : World :=
  {| readDirSync := fun _ => Some (DenoNotFound "No such file or directory");
     walk := fun _ => Rejected (DenoNotFound "No such file or directory");
     import := fun _ => Rejected (JsError "Module not found") |}.

Definition unreadable_world : World :=
  {| readDirSync := fun _ => Some (DenoPermissionDenied "Permission denied");
     walk := fun _ => Rejected (DenoPermissionDenied "Permission denied");
     import := fun _ => Rejected (JsError "Module not found") |}.

(** A single handler file with a dotted stem. *)
Definition dotted_file : WalkEntry.t :=
  file_at "src/components/buttons/foo.bar.ts" "foo.bar.ts".

Definition dotted_world : World :=
  {| readDirSync := fun _ => None;
     walk := fun _ => Fulfilled [dotted_file];
     import := fun _ => Fulfilled (module_of returns_value) |}.


(** ** Vocabulary of the further properties *)

Definition is_call (ev : effect) : bool :=
  match ev with
  | Call _ _ => true
  | _ => false
  end.

(** [generatedStr] as [setupComponents] has it before printing: the header
    row and one row per component. *)
Definition generatedStr (components : list Component) : list (list string) :=
  snd (fold_left
         (fun st component =>
            addComponent (name component) (category component)
                         (List.length components) st)
         components (0, [[underline (newline ++ "Component")]])).

(** The row of the listing for the component at position [i] (from 0) out
    of [total]. *)
Definition listing_row (total i : nat) (component : Component) : list string :=
  [ if (total =? 1)%nat then "-"
    else if (i =? 0)%nat then "┌"
    else if (S i =? total)%nat then "└"
    else "├";
    name component ++ " (" ++ category component ++ ")" ].

Fixpoint rows_from (total i : nat) (components : list Component) : list (list string) :=
  match components with
  | [] => []
  | component :: rest => listing_row total i component :: rows_from total (S i) rest
  end.

(** A discriminator that is classified as the given category name. *)
Definition kind_of_category (cat : string) : option Z :=
  if cat =? "buttons" then Some ComponentType.Button
  else if cat =? "selects" then Some ComponentType.StringSelect
  else None.


(** ** The button builder, [src/lib/core/components/button.ts] *)

(** JavaScript values as far as the builder meets them; numbers are the
    integers. *)
Inductive jsval : Type :=
| JUndefined
| JBool (b : bool)
| JNumber (n : Z)
| JString (s : string)
| JRef (r : nat).

(** [!v] is [true]. *)
Definition falsy (v : jsval) : bool :=
  match v with
  | JUndefined => true
  | JBool b => negb b
  | JNumber n => (n =? 0)%Z
  | JString s => s =? ""
  | JRef _ => false
  end.

(** Objects by reference: [data] and [button] in the source are one object. *)
Definition object : Type := string -> jsval.
Definition heap : Type := nat -> object.

Definition get_prop (h : heap) (r : nat) (k : string) : jsval := h r k.

Definition set_prop (h : heap) (r : nat) (k : string) (v : jsval) : heap :=
  fun r' => if (r' =? r)%nat
            then fun k' => if k' =? k then v else h r k'
            else h r'.

(** The property key a value is converted to when it indexes an object. *)
Definition to_property_key (v : jsval) : string :=
  match v with
  | JUndefined => "undefined"
  | JBool true => "true"
  | JBool false => "false"
  | JNumber n => NilZero.string_of_int (Z.to_int n)
  | JString s => s
  | JRef _ => "[object Object]"
  end.

(** [ButtonStyle] of [discord-api-types/v10] (external package), a numeric
    TypeScript enum: the object maps each name to its number and each number
    back to its name. Properties inherited from [Object.prototype] are not
    part of the model. *)
Module ButtonStyle.
Definition own_properties : list (string * jsval) :=
  [("Primary", JNumber 1); ("1", JString "Primary");
   ("Secondary", JNumber 2); ("2", JString "Secondary");
   ("Success", JNumber 3); ("3", JString "Success");
   ("Danger", JNumber 4); ("4", JString "Danger");
   ("Link", JNumber 5); ("5", JString "Link");
   ("Premium", JNumber 6); ("6", JString "Premium")].

Fixpoint lookup (k : string) (props : list (string * jsval)) : jsval :=
  match props with
  | [] => JUndefined
  | (k', v) :: rest => if k =? k' then v else lookup k rest
  end.

(** [ButtonStyle[v]]. *)
Definition index (v : jsval) : jsval := lookup (to_property_key v) own_properties.
End ButtonStyle.

(** [Button(data)]: the heap after the call and the reference returned. *)
Definition Button (h : heap) (data : nat) : heap * nat :=
  let button := data in
  let h1 := set_prop h button "type" (JNumber 2) in
  let h2 := if falsy (get_prop h1 data "style")
            then set_prop h1 data "style" (JString "Primary")
            else h1 in
  let h3 := set_prop h2 button "style" (ButtonStyle.index (get_prop h2 data "style")) in
  (h3, button).

(** [StringButtonStyle]: the style names the parameter type admits. *)
Definition StringButtonStyle : list string :=
  ["Primary"; "Secondary"; "Success"; "Danger"; "Link"; "Premium"].

(** The number [ButtonStyle] gives a style name. *)
Definition style_number (style : string) : Z :=
  if style =? "Primary" then 1
  else if style =? "Secondary" then 2
  else if style =? "Success" then 3
  else if style =? "Danger" then 4
  else if style =? "Link" then 5
  else 6.

(** The argument is as its type says: [style] is absent or one of the names. *)
Definition typed_button_data (h : heap) (data : nat) : Prop :=
  get_prop h data "style" = JUndefined
  \/ exists style, In style StringButtonStyle /\ get_prop h data "style" = JString style.

(** The style name the builder resolves: [Primary] when absent. *)
Definition requested_style (h : heap) (data : nat) : string :=
  match get_prop h data "style" with
  | JString style => style
  | _ => "Primary"
  end.

(** ** Sample objects *)

Definition sample_heap : heap :=
  fun r k =>
    if (r =? 0)%nat then
      if k =? "custom_id" then JString "ok"
      else if k =? "label" then JString "OK"
      else if k =? "style" then JString "Danger"
      else JUndefined
    else if (r =? 1)%nat then
      if k =? "url" then JString "https://example.org"
      else if k =? "label" then JString "Docs"
      else JUndefined
    else JUndefined.

(** A tree whose walk fails below the root. *)
Definition unwalkable_world : World :=
  {| readDirSync := fun _ => None;
     walk := fun _ => Rejected (DenoPermissionDenied "Permission denied");
     import := fun _ => Fulfilled (module_of returns_value) |}.

(** [sample_world] with every category folder probe failing. *)
Definition unprobed_world : World :=
  {| readDirSync := fun p => if p =? root then None
                             else Some (DenoPermissionDenied "Permission denied");
     walk := fun _ => Fulfilled sample_files;
     import := import sample_world |}.
(** * Properties of the dispatcher *)

Section Dispatcher.

Variable components : list Component.
Variable interaction : Interaction.

Lemma matches_true_iff (category' : string) (c : Component) :
  matches interaction category' c = true <->
  name c = custom_id (data interaction) /\ category c = category'.
Proof.
  unfold matches. rewrite andb_true_iff, !String.eqb_eq. reflexivity.
Qed.

Lemma runComponent_not_found :
  find (matches interaction (getCategory interaction)) components = None ->
  runComponent components interaction
  = ([ConsoleWarn (not_found_message interaction)], Fulfilled tt).
Proof.
  intros Hfind. unfold runComponent. rewrite Hfind. reflexivity.
Qed.

Lemma runComponent_found (component : Component) :
  find (matches interaction (getCategory interaction)) components = Some component ->
  runComponent components interaction
  = match settle_of (default component interaction) with
    | Fulfilled _ =>
        ([LoaderStart (running_label component);
          Call component interaction;
          LoaderResolve (running_label component)], Fulfilled tt)
    | Rejected e =>
        ([LoaderStart (running_label component);
          Call component interaction;
          LoaderError (running_label component);
          ConsoleError " └" e], Fulfilled tt)
    | Pending =>
        ([LoaderStart (running_label component);
          Call component interaction], Pending)
    end.
Proof.
  intros Hfind. unfold runComponent, invoke. rewrite Hfind.
  destruct (settle_of (default component interaction)) as [[] | e | ];
    reflexivity.
Qed.


Lemma call_in_trace (c : Component) (i : Interaction) :
  In (Call c i) (trace (runComponent components interaction)) ->
  find (matches interaction (getCategory interaction)) components = Some c
  /\ i = interaction.
Proof.
  destruct (find (matches interaction (getCategory interaction)) components)
    as [component |] eqn:Hfind.
  - rewrite (runComponent_found component Hfind).
    destruct (settle_of (default component interaction)); simpl;
      intros H; repeat (destruct H as [H | H]; try discriminate H);
      try contradiction; injection H as -> ->; auto.
  - rewrite (runComponent_not_found Hfind). simpl.
    intros [H | []]. discriminate H.
Qed.

End Dispatcher.

(** C5. The classifier is total and closed: every discriminator, present or
    absent, is classified as one of buttons, modals, selects; Button gives
    buttons, each of the five select kinds gives selects, and every other
    value, the absent one included, gives modals. *)
Theorem getCategory_classification (interaction : Interaction) :
  In (getCategory interaction) validComponentCategories
  /\ (component_type (data interaction) = Some ComponentType.Button ->
      getCategory interaction = "buttons")
  /\ (forall t, component_type (data interaction) = Some t ->
                In t select_kinds -> getCategory interaction = "selects")
  /\ (forall t, component_type (data interaction) = Some t ->
                t <> ComponentType.Button -> ~ In t select_kinds ->
                getCategory interaction = "modals")
  /\ (component_type (data interaction) = None ->
      getCategory interaction = "modals").
Proof.
  unfold getCategory, select_kinds.
  destruct (component_type (data interaction)) as [t |].
  - repeat split.
    + destruct (t =? ComponentType.Button)%Z; [simpl; auto |].
      match goal with |- context [if ?b then _ else _] => destruct b end;
        simpl; auto.
    + intros [= ->]. reflexivity.
    + intros t' [= <-] Hin. simpl in Hin.
      repeat (destruct Hin as [<- | Hin]; [reflexivity |]). contradiction.
    + intros t' [= <-] Hb Hs.
      destruct (Z.eqb_spec t ComponentType.Button); [contradiction |].
      simpl in Hs.
      repeat match goal with
             | |- context [(t =? ?k)%Z] =>
                 destruct (Z.eqb_spec t k); [exfalso; apply Hs; subst; tauto |]
             end.
      reflexivity.
    + discriminate.
  - repeat split; try discriminate; simpl; auto.
Qed.

Lemma getCategory_classification_witness :
  getCategory (click (Some 5%Z) "pick") = "selects"
  /\ getCategory (click (Some 4%Z) "form") = "modals"
  /\ getCategory (click (Some 2%Z) "ok") = "buttons"
  /\ getCategory (click None "form") = "modals".
Proof.
  split; [| split; [| split]].
  - apply (proj1 (proj2 (proj2 (getCategory_classification (click (Some 5%Z) "pick"))))
             5%Z); [reflexivity | simpl; tauto].
  - apply (proj1 (proj2 (proj2 (proj2 (getCategory_classification (click (Some 4%Z) "form")))))
             4%Z); [reflexivity | discriminate |].
    simpl. intros H. repeat (destruct H as [H | H]; [discriminate H |]). exact H.
  - apply (proj1 (proj2 (getCategory_classification (click (Some 2%Z) "ok")))).
    reflexivity.
  - apply (proj2 (proj2 (proj2 (proj2 (getCategory_classification (click None "form")))))).
    reflexivity.
Defined.

(** C1. A handler is called by a dispatch only if it is registered, its name
    is the event's customId and its category is the category classified from
    the event; so a handler registered under buttons is not called by an
    event classified as selects or modals, whatever its customId. *)
Theorem dispatch_category_fidelity
        (components : list Component) (interaction : Interaction) :
  (forall c i,
      In (Call c i) (trace (runComponent components interaction)) ->
      In c components /\ i = interaction
      /\ name c = custom_id (data interaction)
      /\ category c = getCategory interaction)
  /\ (forall c i,
         category c = "buttons" ->
         getCategory interaction = "selects" \/ getCategory interaction = "modals" ->
         ~ In (Call c i) (trace (runComponent components interaction))).
Proof.
  assert (Hcall : forall c i,
             In (Call c i) (trace (runComponent components interaction)) ->
             In c components /\ i = interaction
             /\ name c = custom_id (data interaction)
             /\ category c = getCategory interaction).
  { intros c i Hin.
    destruct (call_in_trace components interaction c i Hin) as [Hfind ->].
    apply find_some in Hfind. destruct Hfind as [Hc Hm].
    apply matches_true_iff in Hm. tauto. }
  split; [exact Hcall |].
  intros c i Hcat Hclass Hin.
  destruct (Hcall c i Hin) as (_ & _ & _ & Heq).
  rewrite Hcat in Heq. rewrite <- Heq in Hclass.
  destruct Hclass as [H | H]; discriminate H.
Qed.

Lemma dispatch_category_fidelity_witness :
  name (noop "ok" "buttons") = custom_id (data (click (Some 2%Z) "ok"))
  /\ category (noop "ok" "buttons") = getCategory (click (Some 2%Z) "ok").
Proof.
  apply (proj1 (dispatch_category_fidelity
                  [noop "ok" "selects"; noop "ok" "buttons"]
                  (click (Some 2%Z) "ok"))
           (noop "ok" "buttons") (click (Some 2%Z) "ok")).
  simpl. right. left. reflexivity.
Defined.

(** C8. When no record has the event's customId as name and the classified
    category as category, the dispatch fulfils its promise, its only effect
    is the not-found warning, and no handler is called. *)
Theorem dispatch_not_found_is_noop
        (components : list Component) (interaction : Interaction) :
  (forall c, In c components ->
             ~ (name c = custom_id (data interaction)
                /\ category c = getCategory interaction)) ->
  runComponent components interaction
  = ([ConsoleWarn (not_found_message interaction)], Fulfilled tt)
  /\ (forall c i, ~ In (Call c i) (trace (runComponent components interaction))).
Proof.
  intros Hnone.
  assert (Hfind : find (matches interaction (getCategory interaction)) components = None).
  { destruct (find (matches interaction (getCategory interaction)) components)
      as [c |] eqn:Hf; [| reflexivity].
    apply find_some in Hf. destruct Hf as [Hc Hm].
    apply matches_true_iff in Hm. exfalso. exact (Hnone c Hc Hm). }
  split.
  - apply runComponent_not_found. exact Hfind.
  - intros c i Hin. apply call_in_trace in Hin. destruct Hin as [Hf _].
    rewrite Hfind in Hf. discriminate Hf.
Qed.

Lemma dispatch_not_found_is_noop_witness :
  runComponent [noop "ok" "buttons"] (click (Some 3%Z) "ok")
  = ([ConsoleWarn (not_found_message (click (Some 3%Z) "ok"))], Fulfilled tt).
Proof.
  apply (dispatch_not_found_is_noop [noop "ok" "buttons"] (click (Some 3%Z) "ok")).
  intros c [<- | []] [_ H]. discriminate H.
Defined.

(** ** Isolation of handler failures *)

Section Interleaving.

Variable components : list Component.










Variable interactions : list Interaction.





End Interleaving.



(** * Properties of the startup scan *)

(** ** Laws of the computation type *)

Lemma bind_ret_l {A B} (a : A) (k : A -> Async B) : bind (ret a) k = k a.
Proof. unfold bind, ret. destruct (k a). reflexivity. Qed.

Lemma bind_assoc {A B C} (m : Async A) (k : A -> Async B) (h : B -> Async C) :
  bind (bind m k) h = bind m (fun a => bind (k a) h).
Proof.
  destruct m as [tr [a | e |]]; simpl; try reflexivity.
  destruct (k a) as [tr1 [b | e |]]; simpl; try reflexivity.
  destruct (h b) as [tr2 r]. rewrite app_assoc. reflexivity.
Qed.

Lemma bind_fulfilled {A B} tr (a : A) (k : A -> Async B) :
  bind (tr, Fulfilled a) k = ((tr ++ trace (k a))%list, outcome (k a)).
Proof. simpl. destruct (k a). reflexivity. Qed.

(** ** Lists and keys *)

Lemma find_app {A} (f : A -> bool) (l1 l2 : list A) :
  find f (l1 ++ l2)
  = match find f l1 with
    | Some x => Some x
    | None => find f l2
    end.
Proof.
  induction l1 as [| a l1 IH]; simpl; [reflexivity |].
  destruct (f a); [reflexivity | exact IH].
Qed.

Lemma find_ext {A} (f g : A -> bool) (l : list A) :
  (forall a, f a = g a) -> find f l = find g l.
Proof.
  intros Hfg. induction l as [| a l IH]; simpl; [reflexivity |].
  rewrite Hfg, IH. reflexivity.
Qed.

Lemma has_key_true_iff k c : has_key k c = true <-> key c = k.
Proof.
  unfold has_key, key. destruct k as [n cat]. simpl.
  rewrite andb_true_iff, !String.eqb_eq. split.
  - intros [-> ->]. reflexivity.
  - intros [= -> ->]. auto.
Qed.

Lemma find_has_key_none k l :
  find (has_key k) l = None <-> ~ In k (map key l).
Proof.
  split.
  - intros Hnone Hin. apply in_map_iff in Hin. destruct Hin as (c & Hk & Hc).
    apply (find_none _ _ Hnone) in Hc.
    apply has_key_true_iff in Hk. congruence.
  - intros Hnot. destruct (find (has_key k) l) as [c |] eqn:Hf; [| reflexivity].
    apply find_some in Hf. destruct Hf as [Hc Hk].
    apply has_key_true_iff in Hk. exfalso. apply Hnot.
    apply in_map_iff. exists c. auto.
Qed.

Lemma keep_first_app cands1 cands2 acc :
  keep_first (cands1 ++ cands2) acc = keep_first cands2 (keep_first cands1 acc).
Proof.
  revert acc. induction cands1 as [| c cands1 IH]; intros acc; simpl.
  - reflexivity.
  - destruct (find (has_key (key c)) acc); apply IH.
Qed.

(** Looking a key up in the deduplicated list finds the first record with
    that key among what was there and the candidates, in that order. *)
Lemma find_keep_first k cands acc :
  find (has_key k) (keep_first cands acc) = find (has_key k) (acc ++ cands).
Proof.
  revert acc. induction cands as [| c cands IH]; intros acc; simpl.
  - rewrite app_nil_r. reflexivity.
  - destruct (find (has_key (key c)) acc) as [c' |] eqn:Hc.
    + rewrite IH, !find_app.
      destruct (find (has_key k) acc) as [x |] eqn:Hk; [reflexivity |].
      simpl. destruct (has_key k c) eqn:Hkc; [| reflexivity].
      apply has_key_true_iff in Hkc. subst k. congruence.
    + rewrite IH, <- app_assoc. reflexivity.
Qed.

Lemma keep_first_NoDup cands acc :
  NoDup (map key acc) -> NoDup (map key (keep_first cands acc)).
Proof.
  revert acc. induction cands as [| c cands IH]; intros acc Hnd; simpl.
  - exact Hnd.
  - destruct (find (has_key (key c)) acc) as [c' |] eqn:Hc.
    + apply IH. exact Hnd.
    + apply IH. rewrite map_app. simpl.
      apply NoDup_app; [exact Hnd | repeat constructor; intros [] |].
      intros k Hk [<- | []].
      apply find_has_key_none in Hc. contradiction.
Qed.

Lemma keep_first_incl cands acc c :
  In c (keep_first cands acc) -> In c acc \/ In c cands.
Proof.
  revert acc. induction cands as [| c0 cands IH]; intros acc Hin; simpl in *.
  - auto.
  - destruct (find (has_key (key c0)) acc).
    + destruct (IH _ Hin); auto.
    + destruct (IH _ Hin) as [H | H]; auto.
      apply in_app_or in H. destruct H as [H | [<- | []]]; auto.
Qed.

Lemma keep_first_skip c cands acc :
  In (key c) (map key acc) -> keep_first (c :: cands) acc = keep_first cands acc.
Proof.
  intros Hin. simpl.
  destruct (find (has_key (key c)) acc) eqn:Hf; [reflexivity |].
  apply find_has_key_none in Hf. contradiction.
Qed.

(** ** The category test *)

Lemma categorized_inv file :
  categorized file = true ->
  exists cat, path_category file = Some cat /\ In cat validComponentCategories.
Proof.
  unfold categorized, JS.includes.
  destruct (path_category file) as [cat |]; [| discriminate].
  intros H. exists cat. split; [reflexivity |].
  apply existsb_exists in H. destruct H as (x & Hx & Heq).
  apply String.eqb_eq in Heq. subst. exact Hx.
Qed.

Lemma same_key_has_key file m c :
  categorized file = true ->
  same_key (record_of file m) (path_category file) c
  = has_key (key (record_of file m)) c.
Proof.
  intros Hcat. destruct (categorized_inv file Hcat) as (cat & Hp & _).
  unfold same_key, has_key, key, record_of. simpl. rewrite Hp. reflexivity.
Qed.

(** ** One iteration of the loop *)

Section Loop.

Variable w : World.

Lemma fetchLoop_rejected file rest acc e :
  import w (WalkEntry.path file) = Rejected e ->
  fetchLoop w (file :: rest) acc = ([], Rejected e).
Proof. intros H. simpl. rewrite H. reflexivity. Qed.

Lemma fetchLoop_uncategorized file rest acc m :
  import w (WalkEntry.path file) = Fulfilled m ->
  categorized file = false ->
  fetchLoop w (file :: rest) acc
  = (console_warn (no_category_message file) ;; fetchLoop w rest acc).
Proof.
  intros Hm Hcat. cbn [fetchLoop]. rewrite Hm. unfold await. rewrite bind_fulfilled.
  unfold categorized in Hcat. rewrite Hcat. cbn [negb app].
  destruct (_ ;; _). reflexivity.
Qed.

Lemma fetchLoop_duplicate file rest acc m :
  import w (WalkEntry.path file) = Fulfilled m ->
  categorized file = true ->
  In (key (record_of file m)) (map key acc) ->
  fetchLoop w (file :: rest) acc
  = (console_warn (duplicate_message (record_of file m)) ;; fetchLoop w rest acc).
Proof.
  intros Hm Hcat Hin. cbn [fetchLoop]. rewrite Hm. unfold await. rewrite bind_fulfilled.
  pose proof Hcat as Hcat'. unfold categorized in Hcat'. rewrite Hcat'. cbn [negb app].
  fold (record_of file m).
  rewrite (find_ext _ _ acc (fun c => same_key_has_key file m c Hcat)).
  destruct (find (has_key (key (record_of file m))) acc) eqn:Hf.
  - destruct (_ ;; _). reflexivity.
  - apply find_has_key_none in Hf. contradiction.
Qed.

Lemma fetchLoop_fresh file rest acc m :
  import w (WalkEntry.path file) = Fulfilled m ->
  categorized file = true ->
  ~ In (key (record_of file m)) (map key acc) ->
  fetchLoop w (file :: rest) acc
  = fetchLoop w rest (acc ++ [record_of file m]).
Proof.
  intros Hm Hcat Hin. cbn [fetchLoop]. rewrite Hm. unfold await. rewrite bind_fulfilled.
  pose proof Hcat as Hcat'. unfold categorized in Hcat'. rewrite Hcat'. cbn [negb app].
  fold (record_of file m).
  rewrite (find_ext _ _ acc (fun c => same_key_has_key file m c Hcat)).
  destruct (find (has_key (key (record_of file m))) acc) eqn:Hf.
  - exfalso. apply Hin. apply find_some in Hf. destruct Hf as [Hc Hk].
    apply has_key_true_iff in Hk. rewrite <- Hk. apply in_map. exact Hc.
  - destruct (fetchLoop _ _ _). reflexivity.
Qed.

End Loop.

(** ** The whole scan *)

Section Scan.

Variable w : World.

Lemma fetchLoop_pending file rest acc :
  import w (WalkEntry.path file) = Pending ->
  fetchLoop w (file :: rest) acc = ([], Pending).
Proof. intros H. cbn [fetchLoop]. rewrite H. reflexivity. Qed.

Lemma key_in_dec k (acc : list Component) :
  {In k (map key acc)} + {~ In k (map key acc)}.
Proof.
  destruct (find (has_key k) acc) as [c |] eqn:Hf.
  - left. apply find_some in Hf. destruct Hf as [Hc Hk].
    apply has_key_true_iff in Hk. subst k. apply in_map. exact Hc.
  - right. apply find_has_key_none. exact Hf.
Qed.

(** Scanning a concatenation is scanning its two parts in turn. *)
Lemma fetchLoop_app files1 files2 acc :
  fetchLoop w (files1 ++ files2) acc
  = (acc' <- fetchLoop w files1 acc ;; fetchLoop w files2 acc').
Proof.
  revert acc. induction files1 as [| file files1 IH]; intros acc.
  - simpl app. cbn [fetchLoop]. rewrite bind_ret_l. reflexivity.
  - rewrite <- app_comm_cons.
    destruct (import w (WalkEntry.path file)) as [m | e |] eqn:Hm.
    + destruct (categorized file) eqn:Hcat.
      * destruct (key_in_dec (key (record_of file m)) acc) as [Hin | Hin].
        -- rewrite !(fetchLoop_duplicate w file _ acc m Hm Hcat Hin).
           rewrite bind_assoc, IH. reflexivity.
        -- rewrite !(fetchLoop_fresh w file _ acc m Hm Hcat Hin). apply IH.
      * rewrite !(fetchLoop_uncategorized w file _ acc m Hm Hcat).
        rewrite bind_assoc, IH. reflexivity.
    + rewrite !(fetchLoop_rejected w file _ acc e Hm). reflexivity.
    + rewrite !(fetchLoop_pending file _ acc Hm). reflexivity.
Qed.

(** When every module loads the scan ends with the deduplicated
    candidates. *)
Lemma fetchLoop_loaded files acc :
  Forall (loads w) files ->
  outcome (fetchLoop w files acc) = Fulfilled (keep_first (candidates w files) acc).
Proof.
  intros Hall. revert acc.
  induction Hall as [| file files [m Hm] _ IH]; intros acc.
  - reflexivity.
  - cbn [candidates]. rewrite Hm.
    destruct (categorized file) eqn:Hcat.
    + destruct (key_in_dec (key (record_of file m)) acc) as [Hin | Hin].
      * rewrite (fetchLoop_duplicate w file _ acc m Hm Hcat Hin).
        rewrite (keep_first_skip _ _ _ Hin).
        unfold console_warn, emit. rewrite bind_fulfilled. apply IH.
      * rewrite (fetchLoop_fresh w file _ acc m Hm Hcat Hin).
        cbn [keep_first].
        apply find_has_key_none in Hin. rewrite Hin. apply IH.
    + rewrite (fetchLoop_uncategorized w file _ acc m Hm Hcat).
      unfold console_warn, emit. rewrite bind_fulfilled. apply IH.
Qed.

Lemma candidates_app files1 files2 :
  candidates w (files1 ++ files2) = (candidates w files1 ++ candidates w files2)%list.
Proof.
  induction files1 as [| file files1 IH]; simpl; [reflexivity |].
  destruct (import w (WalkEntry.path file)); try exact IH.
  destruct (categorized file); [simpl; f_equal |]; exact IH.
Qed.

Lemma candidates_origin files c :
  In c (candidates w files) ->
  exists file m, In file files
                 /\ import w (WalkEntry.path file) = Fulfilled m
                 /\ categorized file = true
                 /\ c = record_of file m.
Proof.
  induction files as [| file files IH]; simpl; [intros [] |].
  intros Hin.
  assert (Hrest : In c (candidates w files) ->
                  exists file0 m, (file = file0 \/ In file0 files)
                                  /\ import w (WalkEntry.path file0) = Fulfilled m
                                  /\ categorized file0 = true
                                  /\ c = record_of file0 m).
  { intros H. destruct (IH H) as (f & m & Hf & Hrest). exists f, m. tauto. }
  destruct (import w (WalkEntry.path file)) as [m | e |] eqn:Hm; auto.
  destruct (categorized file) eqn:Hcat; auto.
  destruct Hin as [<- | Hin]; auto.
  exists file, m. auto.
Qed.

Lemma candidates_complete files file m :
  In file files ->
  import w (WalkEntry.path file) = Fulfilled m ->
  categorized file = true ->
  In (record_of file m) (candidates w files).
Proof.
  intros Hin Hm Hcat. induction files as [| f files IH]; [destruct Hin |].
  simpl. destruct Hin as [-> | Hin].
  - rewrite Hm, Hcat. left. reflexivity.
  - destruct (import w (WalkEntry.path f)); auto.
    destruct (categorized f); [right |]; auto.
Qed.

(** A module that throws while loading stops the scan with its error,
    unless an earlier import stopped it before. *)
Lemma fetchLoop_first_failure pre file post acc e :
  Forall (loads w) pre ->
  import w (WalkEntry.path file) = Rejected e ->
  outcome (fetchLoop w (pre ++ file :: post) acc) = Rejected e.
Proof.
  intros Hpre He. rewrite fetchLoop_app.
  pose proof (fetchLoop_loaded pre acc Hpre) as Hout.
  destruct (fetchLoop w pre acc) as [tr r]. simpl in Hout. subst r.
  rewrite bind_fulfilled. rewrite (fetchLoop_rejected w file post _ e He).
  reflexivity.
Qed.

Lemma fetchLoop_some_failure files acc file e :
  In file files ->
  import w (WalkEntry.path file) = Rejected e ->
  (forall g, In g files -> import w (WalkEntry.path g) <> Pending) ->
  exists g e', In g files
               /\ import w (WalkEntry.path g) = Rejected e'
               /\ outcome (fetchLoop w files acc) = Rejected e'.
Proof.
  intros Hin He Hsettle. revert acc.
  induction files as [| f files IH]; intros acc; [destruct Hin |].
  destruct (import w (WalkEntry.path f)) as [m | e0 |] eqn:Hm.
  - assert (Hin' : In file files).
    { destruct Hin as [-> | Hin]; [congruence | exact Hin]. }
    assert (Hsettle' : forall g, In g files -> import w (WalkEntry.path g) <> Pending).
    { intros g Hg. apply Hsettle. right. exact Hg. }
    assert (Hnext : forall acc', exists g e',
                 (f = g \/ In g files)
                 /\ import w (WalkEntry.path g) = Rejected e'
                 /\ outcome (fetchLoop w files acc') = Rejected e').
    { intros acc'. destruct (IH Hin' Hsettle' acc') as (g & e' & Hg & Hrest).
      exists g, e'. tauto. }
    destruct (categorized f) eqn:Hcat.
    + destruct (key_in_dec (key (record_of f m)) acc) as [Hk | Hk].
      * rewrite (fetchLoop_duplicate w f _ acc m Hm Hcat Hk).
        unfold console_warn, emit. rewrite bind_fulfilled. apply Hnext.
      * rewrite (fetchLoop_fresh w f _ acc m Hm Hcat Hk). apply Hnext.
    + rewrite (fetchLoop_uncategorized w f _ acc m Hm Hcat).
      unfold console_warn, emit. rewrite bind_fulfilled. apply Hnext.
  - exists f, e0. rewrite (fetchLoop_rejected w f _ acc e0 Hm).
    split; [left; reflexivity | split; [exact Hm | reflexivity]].
  - exfalso. apply (Hsettle f); [left; reflexivity | exact Hm].
Qed.

Lemma fetchComponents_walked files :
  readDirSync w root = None ->
  walk w root = Fulfilled files ->
  fetchComponents w = fetchLoop w files [].
Proof.
  unfold root, fetchComponents. intros -> ->.
  unfold await. rewrite bind_fulfilled.
  destruct (fetchLoop w files []). reflexivity.
Qed.

Lemma fetchComponents_unreadable err :
  readDirSync w root = Some err ->
  fetchComponents w
  = ((if instanceof_NotFound err then [ConsoleWarn root_not_found_message] else []),
     Fulfilled []).
Proof.
  unfold root, fetchComponents. intros ->.
  destruct (instanceof_NotFound err); reflexivity.
Qed.

Lemma setupComponents_fulfilled tr components :
  fetchComponents w = (tr, Fulfilled components) ->
  setupComponents w
  = ((LoaderStart generating :: tr
        ++ [LoaderResolve generating; ConsoleLog (listing components)])%list,
     Fulfilled (runComponent components)).
Proof. intros H. unfold setupComponents. rewrite H. reflexivity. Qed.

Lemma setupComponents_rejected tr e :
  fetchComponents w = (tr, Rejected e) ->
  setupComponents w
  = ((LoaderStart generating :: tr ++ [LoaderError generating])%list, Rejected e).
Proof. intros H. unfold setupComponents. rewrite H. reflexivity. Qed.

End Scan.

(** ** Splitting strings *)

Lemma split_by_nonempty sep s : JS.split_by sep s <> [].
Proof.
  destruct s as [| c r]; simpl; [discriminate |].
  destruct (sep c); [discriminate |].
  destruct (JS.split_by sep r); discriminate.
Qed.

(** [s.split(sep)[0]] is never [undefined]. *)
Lemma split_head_defined sep s :
  JS.at_index 0 (JS.split sep s) = Some (JS.split_head sep s).
Proof.
  unfold JS.split_head, JS.split, JS.at_index.
  pose proof (split_by_nonempty (Ascii.eqb sep) s) as Hne.
  destruct (JS.split_by (Ascii.eqb sep) s); [contradiction | reflexivity].
Qed.

Lemma split_by_none sep s : has_match sep s = false -> JS.split_by sep s = [s].
Proof.
  induction s as [| c r IH]; simpl; [reflexivity |].
  intros H. apply orb_false_iff in H. destruct H as [Hc Hr].
  rewrite Hc, (IH Hr). reflexivity.
Qed.

Lemma split_by_first sep a c b :
  has_match sep a = false -> sep c = true ->
  JS.split_by sep (a ++ String c b) = a :: JS.split_by sep b.
Proof.
  intros Ha Hc. induction a as [| x a IH]; simpl in *.
  - rewrite Hc. reflexivity.
  - apply orb_false_iff in Ha. destruct Ha as [Hx Ha].
    rewrite Hx, (IH Ha). reflexivity.
Qed.

Lemma has_match_app sep a b :
  has_match sep (a ++ b) = has_match sep a || has_match sep b.
Proof.
  induction a as [| x a IH]; simpl; [reflexivity |].
  rewrite IH, orb_assoc. reflexivity.
Qed.

(** The name is what precedes the first dot of the base name. *)
Lemma split_head_prefix stem rest :
  has_char "." stem = false -> JS.split_head "." (stem ++ "." ++ rest) = stem.
Proof.
  intros H. unfold JS.split_head, JS.split.
  change ("." ++ rest) with (String "." rest).
  rewrite split_by_first; [reflexivity | exact H | reflexivity].
Qed.

Lemma split_head_no_dot s : has_char "." s = false -> JS.split_head "." s = s.
Proof.
  intros H. unfold JS.split_head, JS.split. rewrite split_by_none; auto.
Qed.

Lemma strip_extension_ts stem :
  has_char "." stem = false -> strip_extension (stem ++ ".ts") = stem.
Proof.
  intros H. unfold strip_extension, JS.split.
  change (".ts") with (String "." "ts").
  rewrite split_by_first; [reflexivity | exact H | reflexivity].
Qed.

Lemma categorized_false_iff file :
  categorized file = false <-> ~ in_category_folder file.
Proof.
  unfold in_category_folder. split.
  - intros Hf (cat & Hp & Hin). unfold categorized in Hf. rewrite Hp in Hf.
    simpl in Hf. repeat (destruct Hin as [<- | Hin]; [discriminate Hf |]).
    exact Hin.
  - intros Hnot. destruct (categorized file) eqn:Hcat; [| reflexivity].
    exfalso. apply Hnot. apply categorized_inv. exact Hcat.
Qed.

(** A source file directly under the root has its own name where the
    category is looked for, so it is in no category folder. *)
Lemma root_file_is_uncategorized stem :
  has_path_sep (stem ++ ".ts") = false ->
  ~ in_category_folder (file_at ("src/components/" ++ stem ++ ".ts") (stem ++ ".ts")).
Proof.
  intros Hsep (cat & Hp & Hin).
  assert (Hsegs : JS.split_by is_path_sep ("src/components/" ++ stem ++ ".ts")
                  = ["src"; "components"; stem ++ ".ts"]).
  { change ("src/components/" ++ stem ++ ".ts")
      with ("src" ++ String "/" ("components" ++ String "/" (stem ++ ".ts"))).
    rewrite split_by_first; [| reflexivity | reflexivity].
    rewrite split_by_first; [| reflexivity | reflexivity].
    rewrite (split_by_none _ _ Hsep). reflexivity. }
  unfold path_category, file_at in Hp. cbn [WalkEntry.path] in Hp.
  rewrite Hsegs in Hp. simpl in Hp. injection Hp as <-.
  assert (Hdot : has_char "." (stem ++ ".ts") = true).
  { unfold has_char. rewrite has_match_app. simpl. apply orb_true_r. }
  simpl in Hin.
  repeat (destruct Hin as [Heq | Hin]; [rewrite <- Heq in Hdot; discriminate Hdot |]).
  exact Hin.
Qed.

(** * The claims about startup *)

(** C6. When the root components directory does not exist, the loader warns
    and returns an empty registry, and the startup operation is fulfilled
    with a dispatcher that completes every dispatch. *)
Theorem missing_root_is_not_fatal (w : World) (msg : string) :
  readDirSync w root = Some (DenoNotFound msg) ->
  fetchComponents w = ([ConsoleWarn root_not_found_message], Fulfilled [])
  /\ setupComponents w
     = ([LoaderStart generating;
         ConsoleWarn root_not_found_message;
         LoaderResolve generating;
         ConsoleLog (listing [])], Fulfilled (runComponent []))
  /\ (forall interaction,
         runComponent [] interaction
         = ([ConsoleWarn (not_found_message interaction)], Fulfilled tt)).
Proof.
  intros Hroot.
  pose proof (fetchComponents_unreadable w _ Hroot) as Hfetch. simpl in Hfetch.
  split; [exact Hfetch | split].
  - rewrite (setupComponents_fulfilled w _ _ Hfetch). reflexivity.
  - intros interaction. reflexivity.
Qed.

Lemma missing_root_is_not_fatal_witness :
  fetchComponents rootless_world = ([ConsoleWarn root_not_found_message], Fulfilled []).
Proof.
  apply (missing_root_is_not_fatal rootless_world "No such file or directory").
  reflexivity.
Defined.

(** C10. Whatever error the probe of the root directory raises, the loader
    returns an empty registry and startup is fulfilled; the missing-directory
    warning is written exactly when the error is a not-found error, and for
    any other error the loader writes nothing at all. *)
Theorem any_root_probe_error_gives_empty_registry (w : World) (err : exn) :
  readDirSync w root = Some err ->
  fetchComponents w
  = ((if instanceof_NotFound err then [ConsoleWarn root_not_found_message] else []),
     Fulfilled [])
  /\ outcome (setupComponents w) = Fulfilled (runComponent [])
  /\ (In (ConsoleWarn root_not_found_message) (trace (setupComponents w))
      <-> instanceof_NotFound err = true)
  /\ (instanceof_NotFound err = false ->
      trace (fetchComponents w) = []
      /\ trace (setupComponents w)
         = [LoaderStart generating; LoaderResolve generating; ConsoleLog (listing [])]).
Proof.
  intros Hroot.
  pose proof (fetchComponents_unreadable w _ Hroot) as Hfetch.
  rewrite (setupComponents_fulfilled w _ _ Hfetch), Hfetch.
  split; [reflexivity | split; [reflexivity | split]].
  - destruct (instanceof_NotFound err); simpl.
    + split; auto.
    + split; [| discriminate].
      intros H. repeat (destruct H as [H | H]; [discriminate H |]). destruct H.
  - intros ->. split; reflexivity.
Qed.

Lemma any_root_probe_error_gives_empty_registry_witness :
  fetchComponents unreadable_world = ([], Fulfilled []).
Proof.
  apply (any_root_probe_error_gives_empty_registry
           unreadable_world (DenoPermissionDenied "Permission denied")).
  reflexivity.
Defined.

(** C4. When the import of a discovered file throws, the startup operation
    is rejected with the error of such a file, the one of the named file when
    every file before it loads, so no dispatcher is returned. The scan imports
    the files in turn, so the imports before it are taken to settle. *)
Theorem module_load_failure_aborts_startup
        (w : World) (files : list WalkEntry.t) (file : WalkEntry.t) (e : exn) :
  readDirSync w root = None ->
  walk w root = Fulfilled files ->
  In file files ->
  import w (WalkEntry.path file) = Rejected e ->
  (forall g, In g files -> import w (WalkEntry.path g) <> Pending) ->
  exists tr g e',
    setupComponents w = (tr, Rejected e')
    /\ In g files
    /\ import w (WalkEntry.path g) = Rejected e'
    /\ (forall pre post, files = (pre ++ file :: post)%list -> Forall (loads w) pre -> e' = e).
Proof.
  intros Hroot Hwalk Hin He Hsettle.
  destruct (fetchLoop_some_failure w files [] file e Hin He Hsettle)
    as (g & e' & Hg & Hge & Hout).
  pose proof (fetchComponents_walked w files Hroot Hwalk) as Hfetch.
  destruct (fetchLoop w files []) as [tr r] eqn:Hloop. simpl in Hout. subst r.
  exists (LoaderStart generating :: tr ++ [LoaderError generating])%list, g, e'.
  split; [apply setupComponents_rejected; exact Hfetch |].
  split; [exact Hg | split; [exact Hge |]].
  intros pre post -> Hpre.
  pose proof (fetchLoop_first_failure w pre file post [] e Hpre He) as Hfirst.
  rewrite Hloop in Hfirst. simpl in Hfirst. congruence.
Qed.

Lemma module_load_failure_aborts_startup_witness :
  exists tr g e',
    setupComponents broken_world = (tr, Rejected e')
    /\ In g sample_files
    /\ import broken_world (WalkEntry.path g) = Rejected e'.
Proof.
  destruct (module_load_failure_aborts_startup
              broken_world sample_files
              (file_at "src/components/stray.ts" "stray.ts") (JsError "syntax"))
    as (tr & g & e' & H1 & H2 & H3 & _).
  - reflexivity.
  - reflexivity.
  - simpl. right. left. reflexivity.
  - reflexivity.
  - intros g Hg. simpl in Hg.
    repeat (destruct Hg as [<- | Hg]; [discriminate |]). destruct Hg.
  - exists tr, g, e'. auto.
Defined.

Lemma outcome_bind_ext {A B} (m : Async A) (k1 k2 : A -> Async B) :
  (forall a, outcome (k1 a) = outcome (k2 a)) ->
  outcome (bind m k1) = outcome (bind m k2).
Proof.
  intros H. destruct m as [tr [a | e |]]; simpl; try reflexivity.
  specialize (H a). destruct (k1 a), (k2 a). exact H.
Qed.

(** C7, as the code has it. A file whose category path segment is none of
    buttons, modals, selects and whose module loads adds no record: the iteration writes the
    warning and goes on with the registry unchanged, the scan ends with the
    registry it has without that file, and when the other files load it is
    fulfilled, its output differing by that one warning. *)
Theorem unknown_category_is_skipped
        (w : World) (file : WalkEntry.t) (m : ComponentModule) :
  ~ in_category_folder file ->
  import w (WalkEntry.path file) = Fulfilled m ->
  (forall rest componentData,
      fetchLoop w (file :: rest) componentData
      = (console_warn (no_category_message file) ;; fetchLoop w rest componentData))
  /\ (forall pre post componentData,
         outcome (fetchLoop w (pre ++ file :: post) componentData)
         = outcome (fetchLoop w (pre ++ post) componentData))
  /\ (forall pre post componentData,
         Forall (loads w) pre -> Forall (loads w) post ->
         exists tr1 tr2 registry,
           fetchLoop w (pre ++ file :: post) componentData
           = ((tr1 ++ ConsoleWarn (no_category_message file) :: tr2)%list,
              Fulfilled registry)
           /\ fetchLoop w (pre ++ post) componentData
              = ((tr1 ++ tr2)%list, Fulfilled registry)).
Proof.
  intros Hnot Hm. apply categorized_false_iff in Hnot.
  assert (Hstep : forall rest componentData,
             fetchLoop w (file :: rest) componentData
             = (console_warn (no_category_message file) ;;
                fetchLoop w rest componentData)).
  { intros rest componentData. apply fetchLoop_uncategorized with (m := m); assumption. }
  split; [exact Hstep | split].
  - intros pre post componentData. rewrite !fetchLoop_app.
    apply outcome_bind_ext. intros acc. rewrite Hstep.
    unfold console_warn, emit. rewrite bind_fulfilled. reflexivity.
  - intros pre post componentData Hpre Hpost. rewrite !fetchLoop_app.
    pose proof (fetchLoop_loaded w pre componentData Hpre) as Hout1.
    destruct (fetchLoop w pre componentData) as [tr1 r1]. simpl in Hout1. subst r1.
    set (acc := keep_first (candidates w pre) componentData).
    pose proof (fetchLoop_loaded w post acc Hpost) as Hout2.
    rewrite !bind_fulfilled, Hstep.
    unfold console_warn, emit. rewrite bind_fulfilled.
    destruct (fetchLoop w post acc) as [tr2 r2]. simpl in Hout2. subst r2.
    exists tr1, tr2, (keep_first (candidates w post) acc). split; reflexivity.
Qed.

Lemma unknown_category_is_skipped_witness :
  outcome (fetchLoop sample_world sample_files [])
  = outcome (fetchLoop sample_world
                       [file_at "src/components/buttons/first.ts" "first.ts";
                        file_at "src/components/buttons/nested/first.again.ts"
                                "first.again.ts";
                        file_at "src/components/selects/first.ts" "first.ts"] []).
Proof.
  assert (stray_is_in_no_folder :
            ~ in_category_folder (file_at ("src/components/" ++ "stray" ++ ".ts")
                                          ("stray" ++ ".ts"))).
  { intros (cat & Hp & Hin). vm_compute in Hp. injection Hp as <-.
    simpl in Hin. repeat (destruct Hin as [Hin | Hin]; [discriminate Hin |]).
    exact Hin. }
  apply (proj1 (proj2 (unknown_category_is_skipped
                         sample_world
                         (file_at ("src/components/" ++ "stray" ++ ".ts")
                                  ("stray" ++ ".ts"))
                         (module_of returns_value)
                         stray_is_in_no_folder
                         eq_refl))
           [file_at "src/components/buttons/first.ts" "first.ts"]
           [file_at "src/components/buttons/nested/first.again.ts" "first.again.ts";
            file_at "src/components/selects/first.ts" "first.ts"]
           []).
Defined.

(** C7, as the specification words it, fails: the module is imported before
    the category is looked at, so a file directly under the root whose import
    throws writes no warning and is fatal to the scan and to startup. *)
Lemma stray_file_that_fails_to_load_is_fatal :
  In (file_at "src/components/stray.ts" "stray.ts") sample_files
  /\ ~ in_category_folder (file_at "src/components/stray.ts" "stray.ts")
  /\ walk broken_world root = Fulfilled sample_files
  /\ import broken_world "src/components/stray.ts" = Rejected (JsError "syntax")
  /\ fetchComponents broken_world = ([], Rejected (JsError "syntax"))
  /\ ~ In (ConsoleWarn (no_category_message (file_at "src/components/stray.ts" "stray.ts")))
          (trace (fetchComponents broken_world))
  /\ setupComponents broken_world
     = ([LoaderStart generating; LoaderError generating], Rejected (JsError "syntax")).
Proof.
  split; [simpl; auto |].
  split.
  { intros (cat & Hp & Hin). vm_compute in Hp. injection Hp as <-.
    simpl in Hin. repeat (destruct Hin as [Hin | Hin]; [discriminate Hin |]).
    exact Hin. }
  split; [reflexivity | split; [reflexivity | split; [reflexivity |]]].
  split; [intros [] | reflexivity].
Qed.

Section Registry.

Variable w : World.
Variable files : list WalkEntry.t.
Hypothesis root_exists : readDirSync w root = None.
Hypothesis walked : walk w root = Fulfilled files.
Hypothesis all_load : Forall (loads w) files.

Lemma fetchComponents_registry :
  fetchComponents w
  = (trace (fetchLoop w files []), Fulfilled (keep_first (candidates w files) [])).
Proof.
  rewrite (fetchComponents_walked w files root_exists walked).
  pose proof (fetchLoop_loaded w files [] all_load) as Hout.
  destruct (fetchLoop w files []) as [tr r]. simpl in *. subst r. reflexivity.
Qed.

Lemma registry_NoDup : NoDup (map key (keep_first (candidates w files) [])).
Proof. apply keep_first_NoDup. constructor. Qed.

Lemma registry_lookup k :
  find (has_key k) (keep_first (candidates w files) [])
  = find (has_key k) (candidates w files).
Proof. apply find_keep_first. Qed.

Lemma registry_origin c :
  In c (keep_first (candidates w files) []) ->
  exists file m, In file files
                 /\ import w (WalkEntry.path file) = Fulfilled m
                 /\ categorized file = true
                 /\ c = record_of file m.
Proof.
  intros Hin. apply keep_first_incl in Hin. destruct Hin as [[] | Hin].
  apply candidates_origin. exact Hin.
Qed.

Lemma registry_covers file :
  In file files -> categorized file = true ->
  exists c, In c (keep_first (candidates w files) [])
            /\ name c = file_component_name file
            /\ path_category file = Some (category c).
Proof.
  intros Hin Hcat.
  pose proof (proj1 (Forall_forall _ _) all_load file Hin) as [m Hm].
  pose proof (candidates_complete w files file m Hin Hm Hcat) as Hcand.
  destruct (find (has_key (key (record_of file m)))
                 (keep_first (candidates w files) [])) as [c |] eqn:Hf.
  - apply find_some in Hf. destruct Hf as [Hc Hk].
    apply has_key_true_iff in Hk. injection Hk as Hn Hcatg.
    exists c. split; [exact Hc | split; [exact Hn |]].
    rewrite Hcatg. destruct (categorized_inv file Hcat) as (cat & -> & _).
    reflexivity.
  - rewrite registry_lookup in Hf. apply find_has_key_none in Hf.
    exfalso. apply Hf. apply in_map. exact Hcand.
Qed.


End Registry.



(** C9, as the code has it. When every discovered module loads, each record
    of the registry is named after a discovered file by the part of its base
    name before the first dot, and each file in a category folder has a
    record so named in its category; that part is the whole stem, the base
    name with its extension stripped, when the stem itself has no dot. *)
Theorem record_name_is_first_dot_segment (w : World) (files : list WalkEntry.t) :
  readDirSync w root = None ->
  walk w root = Fulfilled files ->
  Forall (loads w) files ->
  exists tr registry,
    fetchComponents w = (tr, Fulfilled registry)
    /\ (forall c, In c registry ->
                  exists file, In file files
                               /\ name c = JS.split_head "." (WalkEntry.name file)
                               /\ path_category file = Some (category c))
    /\ (forall file, In file files -> in_category_folder file ->
                     exists c, In c registry
                               /\ name c = JS.split_head "." (WalkEntry.name file)
                               /\ path_category file = Some (category c))
    /\ (forall file stem rest,
           WalkEntry.name file = stem ++ "." ++ rest ->
           has_char "." stem = false ->
           file_component_name file = stem)
    /\ (forall file stem,
           WalkEntry.name file = stem ++ ".ts" ->
           has_char "." stem = false ->
           file_component_name file = strip_extension (WalkEntry.name file)).
Proof.
  intros Hroot Hwalk Hall.
  exists (trace (fetchLoop w files [])), (keep_first (candidates w files) []).
  split; [apply fetchComponents_registry; assumption |].
  split; [| split; [| split]].
  - intros c Hc. destruct (registry_origin w files c Hc) as (file & m & Hin & _ & Hcat & ->).
    exists file. split; [exact Hin | split; [reflexivity |]].
    simpl. destruct (categorized_inv file Hcat) as (cat & -> & _). reflexivity.
  - intros file Hin Hfolder. apply (registry_covers w files Hall file Hin).
    destruct (categorized file) eqn:Hcat; [reflexivity |].
    apply categorized_false_iff in Hcat. contradiction.
  - intros file stem rest Hname Hstem. unfold file_component_name.
    rewrite Hname. apply split_head_prefix. exact Hstem.
  - intros file stem Hname Hstem. unfold file_component_name.
    rewrite Hname, (strip_extension_ts stem Hstem).
    apply (split_head_prefix stem "ts"). exact Hstem.
Qed.

Lemma record_name_is_first_dot_segment_witness :
  exists tr registry,
    fetchComponents dotted_world = (tr, Fulfilled registry)
    /\ exists c, In c registry /\ name c = "foo".
Proof.
  assert (dotted_world_loads : Forall (loads dotted_world) [dotted_file])
    by (repeat constructor; eexists; reflexivity).
  destruct (record_name_is_first_dot_segment dotted_world [dotted_file]
                                            eq_refl eq_refl dotted_world_loads)
    as (tr & registry & Hfetch & _ & Hcover & _).
  exists tr, registry. split; [exact Hfetch |].
  destruct (Hcover dotted_file (or_introl eq_refl)) as (c & Hc & Hn & _).
  - exists "buttons". split; [reflexivity | simpl; auto].
  - exists c. split; [exact Hc | exact Hn].
Defined.

(** C9, as the specification words it, fails: the file [foo.bar.ts] is
    registered under the name [foo], while its base name with the extension
    stripped is [foo.bar]. *)
Lemma dotted_stem_is_cut_at_first_dot :
  fetchComponents dotted_world
  = ([], Fulfilled [record_of dotted_file (module_of returns_value)])
  /\ name (record_of dotted_file (module_of returns_value)) = "foo"
  /\ strip_extension (WalkEntry.name dotted_file) = "foo.bar"
  /\ name (record_of dotted_file (module_of returns_value))
     <> strip_extension (WalkEntry.name dotted_file).
Proof.
  split; [reflexivity | split; [reflexivity | split; [reflexivity |]]].
  discriminate.
Qed.

(** * Further properties of the dispatcher *)

Lemma calls_of_dispatch (components : list Component) (interaction : Interaction) :
  filter is_call (trace (runComponent components interaction))
  = match find (matches interaction (getCategory interaction)) components with
    | Some c => [Call c interaction]
    | None => []
    end.
Proof.
  destruct (find (matches interaction (getCategory interaction)) components)
    as [c |] eqn:Hfind.
  - rewrite (runComponent_found components interaction c Hfind).
    destruct (settle_of (default c interaction)); reflexivity.
  - rewrite (runComponent_not_found components interaction Hfind). reflexivity.
Qed.

Lemma find_first_match {A} (f : A -> bool) (pre post : list A) (x : A) :
  (forall a, In a pre -> f a = false) -> f x = true ->
  find f (pre ++ x :: post) = Some x.
Proof.
  intros Hpre Hx. induction pre as [| a pre IH]; simpl.
  - rewrite Hx. reflexivity.
  - rewrite (Hpre a (or_introl eq_refl)). apply IH.
    intros b Hb. apply Hpre. right. exact Hb.
Qed.

Lemma find_all_false {A} (f : A -> bool) (l : list A) :
  (forall a, In a l -> f a = false) -> find f l = None.
Proof.
  intros H. induction l as [| a l IH]; simpl; [reflexivity |].
  rewrite (H a (or_introl eq_refl)). apply IH.
  intros b Hb. apply H. right. exact Hb.
Qed.

Lemma matches_false_iff interaction category' c :
  matches interaction category' c = false <->
  ~ (name c = custom_id (data interaction) /\ category c = category').
Proof.
  rewrite <- (matches_true_iff interaction category' c).
  destruct (matches interaction category' c); split; intros H;
    try reflexivity; try discriminate; try (intros H'; discriminate H').
  exfalso. apply H. reflexivity.
Qed.

(** X1. A dispatch calls exactly one handler, once: the first record in
    registry order whose name and category match the event; records after it
    with the same name and category are never called. *)
Theorem dispatch_calls_first_match_once
        (pre post : list Component) (c : Component) (interaction : Interaction) :
  (forall c', In c' pre ->
              ~ (name c' = custom_id (data interaction)
                 /\ category c' = getCategory interaction)) ->
  name c = custom_id (data interaction) ->
  category c = getCategory interaction ->
  filter is_call (trace (runComponent (pre ++ c :: post) interaction))
  = [Call c interaction].
Proof.
  intros Hpre Hn Hc. rewrite calls_of_dispatch.
  rewrite (find_first_match _ pre post c); [reflexivity | |].
  - intros a Ha. apply matches_false_iff. apply Hpre. exact Ha.
  - apply matches_true_iff. auto.
Qed.

Lemma dispatch_calls_first_match_once_witness :
  filter is_call
         (trace (runComponent [noop "ok" "selects"; thrower "ok" "buttons";
                               noop "ok" "buttons"]
                              (click (Some 2%Z) "ok")))
  = [Call (thrower "ok" "buttons") (click (Some 2%Z) "ok")].
Proof.
  apply (dispatch_calls_first_match_once
           [noop "ok" "selects"] [noop "ok" "buttons"]
           (thrower "ok" "buttons") (click (Some 2%Z) "ok")).
  - intros c' [<- | []] [_ H]. discriminate H.
  - reflexivity.
  - reflexivity.
Defined.

(** X2. A dispatch has no timeout: its promise stays pending exactly when
    the matched handler returns a promise that never settles, and then the
    loader of that dispatch is neither resolved nor failed; in every other
    case the promise is fulfilled. *)
Theorem dispatch_settles_with_its_handler
        (components : list Component) (interaction : Interaction) :
  (outcome (runComponent components interaction) = Pending <->
   exists c, find (matches interaction (getCategory interaction)) components = Some c
             /\ default c interaction = ReturnsPromise Pending)
  /\ (outcome (runComponent components interaction) = Fulfilled tt
      \/ outcome (runComponent components interaction) = Pending)
  /\ (outcome (runComponent components interaction) = Pending ->
      forall label,
        ~ In (LoaderResolve label) (trace (runComponent components interaction))
        /\ ~ In (LoaderError label) (trace (runComponent components interaction))).
Proof.
  destruct (find (matches interaction (getCategory interaction)) components)
    as [c |] eqn:Hfind.
  - rewrite (runComponent_found components interaction c Hfind).
    destruct (default c interaction) as [e | | [[] | e | ]] eqn:Hd; simpl;
      (split; [split; [try discriminate; intros _; exists c; auto
                      | intros (c' & [= <-] & Hc'); congruence]
              | split; [auto | try discriminate]]).
    intros _ label. split; intros H;
      repeat (destruct H as [H | H]; [discriminate H |]); exact H.
  - rewrite (runComponent_not_found components interaction Hfind). simpl.
    split; [split; [discriminate | intros (c' & H & _); discriminate H] |].
    split; [auto | discriminate].
Qed.

(** X3. Records whose name or category differs from the event's do not
    matter to its dispatch: with or without them, wherever they stand in the
    registry, the dispatch does and returns the same. *)
Theorem unrelated_records_do_not_change_dispatch
        (l1 extra l2 : list Component) (interaction : Interaction) :
  (forall c, In c extra ->
             ~ (name c = custom_id (data interaction)
                /\ category c = getCategory interaction)) ->
  runComponent (l1 ++ extra ++ l2) interaction = runComponent (l1 ++ l2) interaction.
Proof.
  intros Hextra. unfold runComponent.
  assert (Hfind : find (matches interaction (getCategory interaction)) extra = None).
  { apply find_all_false. intros a Ha. apply matches_false_iff. apply Hextra. exact Ha. }
  rewrite !find_app, Hfind. reflexivity.
Qed.

Lemma unrelated_records_do_not_change_dispatch_witness :
  runComponent ([noop "ok" "buttons"] ++ [thrower "ok" "selects"; thrower "no" "buttons"]
                  ++ [noop "later" "modals"])
               (click (Some 2%Z) "ok")
  = runComponent ([noop "ok" "buttons"] ++ [noop "later" "modals"])
                 (click (Some 2%Z) "ok").
Proof.
  apply (unrelated_records_do_not_change_dispatch
           [noop "ok" "buttons"] [thrower "ok" "selects"; thrower "no" "buttons"]
           [noop "later" "modals"] (click (Some 2%Z) "ok")).
  intros c [<- | [<- | []]] [Hn Hc]; discriminate.
Defined.

(** * Further properties of the startup scan *)


Lemma fetchLoop_ext (w1 w2 : World) (files : list WalkEntry.t) (acc : list Component) :
  (forall p, import w1 p = import w2 p) ->
  fetchLoop w1 files acc = fetchLoop w2 files acc.
Proof.
  intros Himp. revert acc. induction files as [| file files IH]; intros acc.
  - reflexivity.
  - destruct (import w2 (WalkEntry.path file)) as [m | e |] eqn:Hm2;
      pose proof Hm2 as Hm1; rewrite <- Himp in Hm1.
    + destruct (categorized file) eqn:Hcat.
      * destruct (key_in_dec (key (record_of file m)) acc) as [Hin | Hin].
        -- rewrite (fetchLoop_duplicate w1 file _ acc m Hm1 Hcat Hin),
             (fetchLoop_duplicate w2 file _ acc m Hm2 Hcat Hin), IH. reflexivity.
        -- rewrite (fetchLoop_fresh w1 file _ acc m Hm1 Hcat Hin),
             (fetchLoop_fresh w2 file _ acc m Hm2 Hcat Hin). apply IH.
      * rewrite (fetchLoop_uncategorized w1 file _ acc m Hm1 Hcat),
          (fetchLoop_uncategorized w2 file _ acc m Hm2 Hcat), IH. reflexivity.
    + rewrite (fetchLoop_rejected w1 file _ acc e Hm1),
        (fetchLoop_rejected w2 file _ acc e Hm2). reflexivity.
    + rewrite (fetchLoop_pending w1 file _ acc Hm1),
        (fetchLoop_pending w2 file _ acc Hm2). reflexivity.
Qed.

(** X4. A failure of the directory walk is fatal, unlike a failure of the
    probe of the root: the startup operation marks its loader as failed and
    is rejected with the error of the walk, and imports nothing. *)
Theorem walk_failure_aborts_startup (w : World) (e : exn) :
  readDirSync w root = None ->
  walk w root = Rejected e ->
  fetchComponents w = ([], Rejected e)
  /\ setupComponents w
     = ([LoaderStart generating; LoaderError generating], Rejected e).
Proof.
  unfold root. intros Hroot Hwalk.
  assert (Hfetch : fetchComponents w = ([], Rejected e)).
  { unfold fetchComponents. rewrite Hroot, Hwalk. reflexivity. }
  split; [exact Hfetch |].
  rewrite (setupComponents_rejected w _ _ Hfetch). reflexivity.
Qed.

Lemma walk_failure_aborts_startup_witness :
  setupComponents unwalkable_world
  = ([LoaderStart generating; LoaderError generating],
     Rejected (DenoPermissionDenied "Permission denied")).
Proof.
  apply (walk_failure_aborts_startup
           unwalkable_world (DenoPermissionDenied "Permission denied"));
    reflexivity.
Defined.

(** X5. The probes of the three category folders decide nothing: two
    environments that agree on the probe of the root, on the walk and on the
    imports give the same startup, whatever the probes of other directories
    do. A file is registered even if the probe of its category folder
    failed. *)
Theorem category_probes_are_advisory (w1 w2 : World) :
  readDirSync w1 root = readDirSync w2 root ->
  walk w1 root = walk w2 root ->
  (forall p, import w1 p = import w2 p) ->
  fetchComponents w1 = fetchComponents w2
  /\ setupComponents w1 = setupComponents w2.
Proof.
  unfold root. intros Hroot Hwalk Himp.
  assert (Hfetch : fetchComponents w1 = fetchComponents w2).
  { unfold fetchComponents. rewrite Hroot, Hwalk.
    destruct (readDirSync w2 "./src/components"); [reflexivity |].
    destruct (walk w2 "./src/components") as [files | e |]; try reflexivity.
    unfold await. rewrite !bind_fulfilled.
    rewrite (fetchLoop_ext w1 w2 files [] Himp). reflexivity. }
  split; [exact Hfetch |].
  unfold setupComponents. rewrite Hfetch. reflexivity.
Qed.

Lemma category_probes_are_advisory_witness :
  setupComponents unprobed_world = setupComponents sample_world.
Proof.
  apply (category_probes_are_advisory unprobed_world sample_world).
  - reflexivity.
  - reflexivity.
  - intros p. reflexivity.
Defined.





Lemma keep_first_extends cands acc :
  exists added,
    keep_first cands acc = (acc ++ added)%list
    /\ forall c, In c added -> In c cands /\ ~ In (key c) (map key acc).
Proof.
  revert acc. induction cands as [| c0 cands IH]; intros acc; simpl.
  - exists []. split; [rewrite app_nil_r; reflexivity | intros c []].
  - destruct (find (has_key (key c0)) acc) as [c' |] eqn:Hf.
    + destruct (IH acc) as (added & Heq & Hadded).
      exists added. split; [exact Heq |].
      intros c Hc. destruct (Hadded c Hc). auto.
    + destruct (IH (acc ++ [c0])%list) as (added & Heq & Hadded).
      exists (c0 :: added). split.
      * rewrite Heq, <- app_assoc. reflexivity.
      * intros c [<- | Hc].
        -- split; [left; reflexivity | apply find_has_key_none; exact Hf].
        -- destruct (Hadded c Hc) as [Hin Hnot]. split; [right; exact Hin |].
           intros Hk. apply Hnot. rewrite map_app. apply in_or_app. left. exact Hk.
Qed.

(** X7. Files later in scan order never displace a record: the registry of
    a scan of [files1] followed by [files2] is the registry of the scan of
    [files1] with further records appended, each under a pair that was not
    there yet. *)
Theorem later_files_only_append (w : World) (files1 files2 : list WalkEntry.t) :
  Forall (loads w) files1 ->
  Forall (loads w) files2 ->
  exists registry1 added,
    outcome (fetchLoop w files1 []) = Fulfilled registry1
    /\ outcome (fetchLoop w (files1 ++ files2) []) = Fulfilled (registry1 ++ added)%list
    /\ forall c, In c added ->
                 In c (candidates w files2) /\ ~ In (key c) (map key registry1).
Proof.
  intros H1 H2.
  destruct (keep_first_extends (candidates w files2) (keep_first (candidates w files1) []))
    as (added & Heq & Hadded).
  exists (keep_first (candidates w files1) []), added.
  split; [apply fetchLoop_loaded; exact H1 |].
  split; [| exact Hadded].
  rewrite fetchLoop_loaded by (apply Forall_app; auto).
  rewrite candidates_app, keep_first_app, Heq. reflexivity.
Qed.

Lemma later_files_only_append_witness :
  exists registry1 added,
    outcome (fetchLoop sample_world
                       [file_at "src/components/buttons/first.ts" "first.ts"] [])
    = Fulfilled registry1
    /\ outcome (fetchLoop sample_world sample_files []) = Fulfilled (registry1 ++ added)%list.
Proof.
  destruct (later_files_only_append
              sample_world
              [file_at "src/components/buttons/first.ts" "first.ts"]
              [file_at "src/components/stray.ts" "stray.ts";
               file_at "src/components/buttons/nested/first.again.ts" "first.again.ts";
               file_at "src/components/selects/first.ts" "first.ts"])
    as (registry1 & added & Hone & Hall & _).
  - repeat constructor; eexists; reflexivity.
  - repeat constructor; eexists; reflexivity.
  - exists registry1, added. split; [exact Hone | exact Hall].
Defined.

(** X8. Only the third path segment decides the category: whatever the two
    leading segments are, whichever of the two separators is used, and
    however deep below the folder the file lies, the category is the third
    segment, and the file passes the category test exactly when that segment
    is one of the three names. *)
Theorem category_is_third_path_segment
        (a b cat rest base : string) (s1 s2 s3 : ascii) :
  has_path_sep a = false ->
  has_path_sep b = false ->
  has_path_sep cat = false ->
  is_path_sep s1 = true ->
  is_path_sep s2 = true ->
  is_path_sep s3 = true ->
  path_category (file_at (a ++ String s1 (b ++ String s2 (cat ++ String s3 rest))) base)
  = Some cat
  /\ (categorized (file_at (a ++ String s1 (b ++ String s2 (cat ++ String s3 rest))) base)
      = true
      <-> In cat validComponentCategories).
Proof.
  intros Ha Hb Hcat H1 H2 H3.
  assert (Hp : path_category
                 (file_at (a ++ String s1 (b ++ String s2 (cat ++ String s3 rest))) base)
               = Some cat).
  { unfold path_category, file_at. cbn [WalkEntry.path].
    rewrite !split_by_first by assumption. reflexivity. }
  split; [exact Hp |]. split.
  - intros Hc. destruct (categorized_inv _ Hc) as (cat' & Hp' & Hin). congruence.
  - intros Hin. unfold categorized, JS.includes. rewrite Hp.
    apply existsb_exists. exists cat. split; [exact Hin | apply String.eqb_refl].
Qed.

Lemma category_is_third_path_segment_witness :
  path_category (file_at ("src" ++ String (ascii_of_nat 92)
                            ("components" ++ String "/"
                               ("selects" ++ String (ascii_of_nat 92) "deep/deeper/pick.ts")))
                         "pick.ts")
  = Some "selects".
Proof.
  apply (category_is_third_path_segment
           "src" "components" "selects" "deep/deeper/pick.ts" "pick.ts"
           (ascii_of_nat 92) "/" (ascii_of_nat 92)); reflexivity.
Defined.

Lemma find_NoDup_key (l : list Component) (c : Component) :
  NoDup (map key l) -> In c l -> find (has_key (key c)) l = Some c.
Proof.
  induction l as [| c0 l IH]; simpl; intros Hnd Hin; [destruct Hin |].
  inversion Hnd as [| k ks Hnot Hnd']; subst.
  destruct (has_key (key c) c0) eqn:Hk.
  - apply has_key_true_iff in Hk. destruct Hin as [-> | Hin]; [reflexivity |].
    exfalso. apply Hnot. rewrite Hk. apply in_map. exact Hin.
  - destruct Hin as [-> | Hin].
    + assert (Ht : has_key (key c) c = true) by (apply has_key_true_iff; reflexivity).
      congruence.
    + apply IH; assumption.
Qed.

Lemma find_matches_has_key interaction (l : list Component) :
  find (matches interaction (getCategory interaction)) l
  = find (has_key (custom_id (data interaction), getCategory interaction)) l.
Proof. apply find_ext. intros c. reflexivity. Qed.

(** X9. From file to call: when every module loads, an event whose customId
    is the name derived from a file in a category folder, and whose
    discriminator is classified as that category, makes the dispatcher
    returned by startup call exactly one handler, the record of the first
    file in scan order with that name and category. *)
Theorem discovered_handler_is_dispatched
        (w : World) (files : list WalkEntry.t) (file : WalkEntry.t)
        (interaction : Interaction) :
  readDirSync w root = None ->
  walk w root = Fulfilled files ->
  Forall (loads w) files ->
  In file files ->
  in_category_folder file ->
  custom_id (data interaction) = file_component_name file ->
  path_category file = Some (getCategory interaction) ->
  exists tr run c,
    setupComponents w = (tr, Fulfilled run)
    /\ find (has_key (file_component_name file, getCategory interaction))
            (candidates w files) = Some c
    /\ filter is_call (trace (run interaction)) = [Call c interaction].
Proof.
  intros Hroot Hwalk Hall Hin Hfolder Hid Hcat.
  pose proof (fetchComponents_registry w files Hroot Hwalk Hall) as Hfetch.
  assert (Hcategorized : categorized file = true).
  { destruct (categorized file) eqn:Hc; [reflexivity |].
    apply categorized_false_iff in Hc. contradiction. }
  pose proof (proj1 (Forall_forall _ _) Hall file Hin) as [m Hm].
  pose proof (candidates_complete w files file m Hin Hm Hcategorized) as Hcand.
  assert (Hkey : key (record_of file m)
                 = (file_component_name file, getCategory interaction)).
  { unfold key, record_of. simpl. rewrite Hcat. reflexivity. }
  destruct (find (has_key (file_component_name file, getCategory interaction))
                 (candidates w files)) as [c |] eqn:Hf.
  - eexists. exists (runComponent (keep_first (candidates w files) [])), c.
    split; [apply setupComponents_fulfilled; exact Hfetch |].
    split; [reflexivity |].
    rewrite calls_of_dispatch, find_matches_has_key, Hid, registry_lookup, Hf.
    reflexivity.
  - exfalso. apply find_has_key_none in Hf. apply Hf.
    rewrite <- Hkey. apply in_map. exact Hcand.
Qed.

Lemma discovered_handler_is_dispatched_witness :
  exists tr run c,
    setupComponents sample_world = (tr, Fulfilled run)
    /\ find (has_key ("first", "buttons")) (candidates sample_world sample_files) = Some c
    /\ filter is_call (trace (run (click (Some 2%Z) "first")))
       = [Call c (click (Some 2%Z) "first")].
Proof.
  apply (discovered_handler_is_dispatched
           sample_world sample_files
           (file_at "src/components/buttons/nested/first.again.ts" "first.again.ts")
           (click (Some 2%Z) "first")).
  - reflexivity.
  - reflexivity.
  - repeat constructor; eexists; reflexivity.
  - simpl. right. right. left. reflexivity.
  - exists "buttons". split; [reflexivity | simpl; auto].
  - reflexivity.
  - reflexivity.
Defined.

Lemma kind_of_category_classified cat id :
  In cat validComponentCategories ->
  getCategory (click (kind_of_category cat) id) = cat.
Proof.
  simpl. intros [<- | [<- | [<- | []]]]; reflexivity.
Qed.

(** X10. When every module loads, every record of the registry has one of
    the three category names, and none is dead: an event carrying the
    record's name and a discriminator of its category makes the dispatcher
    call that very record and no other. *)
Theorem registry_records_are_valid_and_reachable (w : World) (files : list WalkEntry.t) :
  readDirSync w root = None ->
  walk w root = Fulfilled files ->
  Forall (loads w) files ->
  exists tr registry,
    fetchComponents w = (tr, Fulfilled registry)
    /\ forall c, In c registry ->
                 In (category c) validComponentCategories
                 /\ filter is_call
                           (trace (runComponent registry
                                                (click (kind_of_category (category c))
                                                       (name c))))
                    = [Call c (click (kind_of_category (category c)) (name c))].
Proof.
  intros Hroot Hwalk Hall.
  exists (trace (fetchLoop w files [])), (keep_first (candidates w files) []).
  split; [apply fetchComponents_registry; assumption |].
  intros c Hc.
  assert (Hvalid : In (category c) validComponentCategories).
  { destruct (registry_origin w files c Hc) as (file & m & _ & _ & Hcat & ->).
    destruct (categorized_inv file Hcat) as (cat & Hp & Hin).
    simpl. rewrite Hp. exact Hin. }
  split; [exact Hvalid |].
  rewrite calls_of_dispatch, find_matches_has_key.
  rewrite (kind_of_category_classified _ _ Hvalid). simpl custom_id.
  change (name c, category c) with (key c).
  rewrite (find_NoDup_key _ c (registry_NoDup w files) Hc). reflexivity.
Qed.

Lemma registry_records_are_valid_and_reachable_witness :
  exists tr registry, fetchComponents sample_world = (tr, Fulfilled registry).
Proof.
  assert (Hall : Forall (loads sample_world) sample_files)
    by (repeat constructor; eexists; reflexivity).
  destruct (registry_records_are_valid_and_reachable sample_world sample_files
                                                     eq_refl eq_refl Hall)
    as (tr & registry & Hfetch & _).
  exists tr, registry. exact Hfetch.
Defined.

Lemma split_by_head_clean sep s :
  has_match sep (hd EmptyString (JS.split_by sep s)) = false.
Proof.
  induction s as [| c r IH]; simpl; [reflexivity |].
  destruct (sep c) eqn:Hc; [reflexivity |].
  destruct (JS.split_by sep r) as [| h t]; simpl in *.
  - rewrite Hc. reflexivity.
  - rewrite Hc, IH. reflexivity.
Qed.

(** X11. Names derived from files never contain a dot, so an event whose
    customId contains one reaches no discovered handler: its dispatch is the
    not-found warning and nothing else. *)
Theorem dotted_custom_id_is_never_dispatched
        (w : World) (files : list WalkEntry.t) (interaction : Interaction) :
  readDirSync w root = None ->
  walk w root = Fulfilled files ->
  Forall (loads w) files ->
  has_char "." (custom_id (data interaction)) = true ->
  exists tr run,
    setupComponents w = (tr, Fulfilled run)
    /\ run interaction = ([ConsoleWarn (not_found_message interaction)], Fulfilled tt).
Proof.
  intros Hroot Hwalk Hall Hdot.
  pose proof (fetchComponents_registry w files Hroot Hwalk Hall) as Hfetch.
  eexists. exists (runComponent (keep_first (candidates w files) [])).
  split; [apply setupComponents_fulfilled; exact Hfetch |].
  apply runComponent_not_found. apply find_all_false.
  intros c Hc. apply matches_false_iff. intros [Hn _].
  destruct (registry_origin w files c Hc) as (file & m & _ & _ & _ & ->).
  simpl in Hn. unfold file_component_name, JS.split_head, JS.split in Hn.
  pose proof (split_by_head_clean (Ascii.eqb ".") (WalkEntry.name file)) as Hclean.
  rewrite Hn in Hclean. unfold has_char in Hdot. congruence.
Qed.

Lemma dotted_custom_id_is_never_dispatched_witness :
  exists tr run,
    setupComponents sample_world = (tr, Fulfilled run)
    /\ run (click (Some 2%Z) "first.again")
       = ([ConsoleWarn (not_found_message (click (Some 2%Z) "first.again"))],
          Fulfilled tt).
Proof.
  apply (dotted_custom_id_is_never_dispatched
           sample_world sample_files (click (Some 2%Z) "first.again")).
  - reflexivity.
  - reflexivity.
  - repeat constructor; eexists; reflexivity.
  - reflexivity.
Defined.




(** ** The listing *)

Lemma fold_addComponent (total : nat) (components : list Component) :
  forall st,
    fold_left
      (fun st component =>
         addComponent (name component) (category component) total st)
      components st
    = (fst st + List.length components,
       (snd st ++ rows_from total (fst st) components)%list).
Proof.
  induction components as [| c components IH]; intros [n rows].
  - simpl. rewrite Nat.add_0_r, app_nil_r. reflexivity.
  - cbn [fold_left]. rewrite IH. unfold addComponent, listing_row.
    cbn [fst snd rows_from List.length]. rewrite <- app_assoc. cbn [app].
    rewrite (Nat.eqb_sym total (S n)). f_equal. lia.
Qed.

Lemma nth_error_rows_from (total : nat) (components : list Component) :
  forall n i c,
    nth_error components i = Some c ->
    nth_error (rows_from total n components) i = Some (listing_row total (n + i) c).
Proof.
  induction components as [| c0 components IH]; intros n [| i] c H; simpl in *;
    try discriminate H.
  - injection H as <-. rewrite Nat.add_0_r. reflexivity.
  - rewrite (IH (S n) i c H). f_equal. f_equal. lia.
Qed.

Lemma rows_from_length (total : nat) (components : list Component) :
  forall n, List.length (rows_from total n components) = List.length components.
Proof.
  induction components as [| c cs IH]; intros n; simpl; [reflexivity |].
  rewrite IH. reflexivity.
Qed.

(** X13. The listing printed at startup has the header row and then one row
    per record, in registry order, labelled with the record's name and its
    category in brackets; the connector of a row is [-] for a single record
    and otherwise the top corner for the first row, the bottom corner for the
    last and the tee for those between. *)
Theorem listing_has_a_row_per_record (components : list Component) :
  generatedStr components
  = [underline (newline ++ "Component")]
      :: rows_from (List.length components) 0 components
  /\ List.length (generatedStr components) = S (List.length components)
  /\ (forall i c,
         nth_error components i = Some c ->
         nth_error (generatedStr components) (S i)
         = Some [ (if (List.length components =? 1)%nat then "-"
                   else if (i =? 0)%nat then "┌"
                   else if (S i =? List.length components)%nat then "└"
                   else "├");
                  (name c ++ " (" ++ category c ++ ")") ])
  /\ listing components
     = JS.join newline (map (JS.join " ") (generatedStr components)).
Proof.
  assert (Hrows : generatedStr components
                  = [underline (newline ++ "Component")]
                      :: rows_from (List.length components) 0 components).
  { unfold generatedStr. rewrite fold_addComponent. reflexivity. }
  split; [exact Hrows | split; [| split]].
  - rewrite Hrows. simpl. rewrite rows_from_length. reflexivity.
  - intros i c Hc. rewrite Hrows. simpl.
    rewrite (nth_error_rows_from _ _ 0 i c Hc). reflexivity.
  - reflexivity.
Qed.

(** X14. The duplicate warning names the category by its first letter in
    upper case followed by the rest of what precedes the first [s] of the
    category name: [Button] for buttons, [Modal] for modals, but the bare
    letter [S] for selects. *)
Theorem duplicate_warning_names_the_category (c : Component) :
  In (category c) validComponentCategories ->
  duplicate_message c
  = " " ++ yellow "!" ++ " "
        ++ (if category c =? "buttons" then "Button"
            else if category c =? "modals" then "Modal"
            else "S")
        ++ " component " ++ dquote ++ name c ++ dquote
        ++ " already exists, skipping the duplicate".
Proof.
  unfold duplicate_message. simpl.
  intros [<- | [<- | [<- | []]]]; reflexivity.
Qed.

Lemma duplicate_warning_names_the_category_witness :
  duplicate_message (noop "pick" "selects")
  = " " ++ yellow "!" ++ " " ++ "S" ++ " component " ++ dquote ++ "pick" ++ dquote
        ++ " already exists, skipping the duplicate".
Proof.
  apply (duplicate_warning_names_the_category (noop "pick" "selects")).
  simpl. auto.
Defined.

(** * Properties of the button builder *)

Lemma get_set_same h r k v : get_prop (set_prop h r k v) r k = v.
Proof.
  unfold get_prop, set_prop. rewrite Nat.eqb_refl, String.eqb_refl. reflexivity.
Qed.

Lemma get_set_other_key h r k k' v :
  k' <> k -> get_prop (set_prop h r k v) r k' = get_prop h r k'.
Proof.
  intros Hk. unfold get_prop, set_prop. rewrite Nat.eqb_refl.
  destruct (String.eqb_spec k' k); [contradiction | reflexivity].
Qed.

Lemma get_set_other_ref h r r' k k' v :
  r' <> r -> get_prop (set_prop h r k v) r' k' = get_prop h r' k'.
Proof.
  intros Hr. unfold get_prop, set_prop.
  destruct (Nat.eqb_spec r' r); [contradiction | reflexivity].
Qed.

(** What a call leaves in [style], for any object. *)
Lemma Button_style h data :
  get_prop (fst (Button h data)) data "style"
  = ButtonStyle.index (if falsy (get_prop h data "style")
                       then JString "Primary"
                       else get_prop h data "style").
Proof.
  unfold Button. cbn [fst]. rewrite get_set_same.
  rewrite (get_set_other_key h data "type" "style") by discriminate.
  destruct (falsy (get_prop h data "style")).
  - rewrite get_set_same. reflexivity.
  - rewrite (get_set_other_key h data "type" "style") by discriminate. reflexivity.
Qed.

Lemma Button_type h data : get_prop (fst (Button h data)) data "type" = JNumber 2.
Proof.
  unfold Button. cbn [fst].
  rewrite get_set_other_key by discriminate.
  destruct (falsy (get_prop (set_prop h data "type" (JNumber 2)) data "style")).
  - rewrite get_set_other_key by discriminate. apply get_set_same.
  - apply get_set_same.
Qed.

Lemma Button_frame h data r k :
  r <> data \/ (k <> "type" /\ k <> "style") ->
  get_prop (fst (Button h data)) r k = get_prop h r k.
Proof.
  intros Hframe. unfold Button. cbn [fst].
  destruct (Nat.eq_dec r data) as [-> | Hr].
  - destruct Hframe as [Hne | [Ht Hs]]; [contradiction |].
    rewrite get_set_other_key by exact Hs.
    destruct (falsy (get_prop (set_prop h data "type" (JNumber 2)) data "style")).
    + rewrite get_set_other_key by exact Hs. apply get_set_other_key. exact Ht.
    + apply get_set_other_key. exact Ht.
  - rewrite get_set_other_ref by exact Hr.
    destruct (falsy (get_prop (set_prop h data "type" (JNumber 2)) data "style")).
    + rewrite get_set_other_ref by exact Hr. apply get_set_other_ref. exact Hr.
    + apply get_set_other_ref. exact Hr.
Qed.

Lemma typed_style_resolved h data :
  typed_button_data h data ->
  In (requested_style h data) StringButtonStyle
  /\ (if falsy (get_prop h data "style")
      then JString "Primary"
      else get_prop h data "style") = JString (requested_style h data).
Proof.
  unfold requested_style. intros [-> | (style & Hin & ->)].
  - split; [simpl; auto | reflexivity].
  - split; [exact Hin |].
    simpl in Hin.
    repeat (destruct Hin as [<- | Hin]; [reflexivity |]). destruct Hin.
Qed.

Lemma index_of_style_name style :
  In style StringButtonStyle ->
  ButtonStyle.index (JString style) = JNumber (style_number style)
  /\ ButtonStyle.index (JNumber (style_number style)) = JString style
  /\ (1 <= style_number style <= 6)%Z.
Proof.
  simpl. intros H.
  repeat (destruct H as [<- | H]; [repeat split; try reflexivity; discriminate |]).
  destruct H.
Qed.

(** X15. Given data as its type says, with [style] absent or one of the six
    style names, the builder returns the very object it was given, now with
    [type] 2 and [style] the number of the requested style, that of Primary
    when none was given; it changes no other property of the object and no
    other object. *)
Theorem Button_sets_type_and_numeric_style (h : heap) (data : nat) :
  typed_button_data h data ->
  snd (Button h data) = data
  /\ get_prop (fst (Button h data)) data "type" = JNumber 2
  /\ get_prop (fst (Button h data)) data "style"
     = JNumber (style_number (requested_style h data))
  /\ (1 <= style_number (requested_style h data) <= 6)%Z
  /\ (forall k, k <> "type" -> k <> "style" ->
                get_prop (fst (Button h data)) data k = get_prop h data k)
  /\ (forall r k, r <> data -> get_prop (fst (Button h data)) r k = get_prop h r k).
Proof.
  intros Htyped.
  destruct (typed_style_resolved h data Htyped) as [Hin Hres].
  destruct (index_of_style_name _ Hin) as (Hnum & _ & Hrange).
  split; [reflexivity | split; [apply Button_type | split; [| split; [exact Hrange |]]]].
  - rewrite Button_style, Hres. exact Hnum.
  - split.
    + intros k Ht Hs. apply Button_frame. right. auto.
    + intros r k Hr. apply Button_frame. left. exact Hr.
Qed.

Lemma Button_sets_type_and_numeric_style_witness :
  get_prop (fst (Button sample_heap 0)) 0 "style" = JNumber 4
  /\ get_prop (fst (Button sample_heap 1)) 1 "style" = JNumber 1.
Proof.
  split.
  - apply (proj1 (proj2 (proj2 (Button_sets_type_and_numeric_style sample_heap 0
             (or_intror (ex_intro _ "Danger"
                (conj (or_intror (or_intror (or_intror (or_introl eq_refl))))
                      eq_refl))))))).
  - apply (proj1 (proj2 (proj2 (Button_sets_type_and_numeric_style sample_heap 1
             (or_introl eq_refl))))).
Defined.

(** X16. The builder is not idempotent on the object it mutates: called a
    second time on the same object it reads the number it stored and stores
    the style's name, a string, in its place; a third call stores the number
    again. *)
Theorem Button_twice_stores_the_style_name (h : heap) (data : nat) :
  typed_button_data h data ->
  get_prop (fst (Button (fst (Button h data)) data)) data "style"
  = JString (requested_style h data)
  /\ get_prop (fst (Button (fst (Button h data)) data)) data "type" = JNumber 2
  /\ get_prop (fst (Button (fst (Button (fst (Button h data)) data)) data)) data "style"
     = JNumber (style_number (requested_style h data)).
Proof.
  intros Htyped.
  destruct (typed_style_resolved h data Htyped) as [Hin Hres].
  destruct (index_of_style_name _ Hin) as (Hnum & Hname & Hrange).
  assert (Hfirst : get_prop (fst (Button h data)) data "style"
                   = JNumber (style_number (requested_style h data)))
    by (rewrite Button_style, Hres; exact Hnum).
  assert (Hsecond : get_prop (fst (Button (fst (Button h data)) data)) data "style"
                    = JString (requested_style h data)).
  { rewrite Button_style, Hfirst. simpl falsy.
    destruct (Z.eqb_spec (style_number (requested_style h data)) 0); [lia |].
    exact Hname. }
  split; [exact Hsecond | split; [apply Button_type |]].
  rewrite Button_style, Hsecond.
  assert (Hnonempty : falsy (JString (requested_style h data)) = false).
  { simpl in Hin. simpl.
    repeat (destruct Hin as [<- | Hin]; [reflexivity |]). destruct Hin. }
  rewrite Hnonempty. exact Hnum.
Qed.

Lemma Button_twice_stores_the_style_name_witness :
  get_prop (fst (Button (fst (Button sample_heap 1)) 1)) 1 "style" = JString "Primary".
Proof.
  apply (proj1 (Button_twice_stores_the_style_name sample_heap 1 (or_introl eq_refl))).
Defined.
